(** * SpringRoll: the container plugin and the learning plugin

    A shallow embedding of [ContainerPlugin] (setup, preload, the inbound
    message handlers, teardown) and of the learning [plugin] (setup,
    teardown), with the properties of the specification stated over it.

    JavaScript values are a small tagged union; objects used as maps live in
    a store of objects addressed by reference, so that [this.playOptions] and
    [this.options.playOptions] can name the same object.  A call that ends in
    a [TypeError] in the source (a property read on [null]) is [None] here.
    Every call made on a collaborator (the messenger, the event bus, the
    dispatcher, the page-visibility watcher) is appended to a log, in the
    order in which the source makes it. *)

From stdpp Require Import gmap strings list fin_maps pretty.

Open Scope string_scope.
Open Scope list_scope.

(** ** JavaScript values *)

Module Js.

Inductive JsVal : Type :=
| VUndefined
| VNull
| VBool (b : bool)
| VNum (n : Z)
| VNaN
| VStr (s : string)
| VRef (l : positive).

#[global] Instance JsVal_eq_dec : EqDecision JsVal.
Proof. solve_decision. Defined.

(** ToBoolean: [undefined], [null], [false], [0], [NaN] and [""] are falsy,
    everything else (every object in particular) is truthy. *)
Definition truthy (v : JsVal) : bool :=
  match v with
  | VUndefined | VNull | VNaN => false
  | VBool b => b
  | VNum n => negb (n =? 0)%Z
  | VStr s => negb (String.eqb s "")
  | VRef _ => true
  end.

(** [a || b] *)
Definition js_or (a b : JsVal) : JsVal := if truthy a then a else b.

(** [!!v] *)
Definition js_bool (v : JsVal) : bool := truthy v.

(** *** Numbers as text

    [VNum n] is the Number that the integer [n] denotes, as the literal
    [n] does in a program: the double nearest to [n].  Every integer up to
    [2^53] in absolute value is its own Number; beyond, integers are
    rounded to 53 significant bits, and from [2^1024 - 2^970] on they are
    [Infinity]. *)

(** The Number nearest to the integer [n > 0] (round to nearest, ties to
    the even significand); [None] stands for [Infinity]. *)
Definition nearest_double (n : Z) : option Z :=
  (let e := Z.log2 n - 52 in
   if e <=? 0 then Some n
   else
     let q := Z.shiftr n e in
     let r := n - Z.shiftl q e in
     let half := 2 ^ (e - 1) in
     let m := if (half <? r) || ((r =? half) && Z.odd q) then q + 1 else q in
     let x := Z.shiftl m e in
     if 2 ^ 1024 <=? x then None else Some x)%Z.

(** Whether the integer [c] is read back as the Number [x >= 2^53]: it
    lies between the midpoints to the two neighbours of [x] (the lower
    neighbour is twice as near when the significand of [x] is [2^52]), the
    midpoints included when the significand of [x] is even.  All sides are
    multiplied by four, to stay in the integers. *)
Definition reads_as (x c : Z) : bool :=
  (let e := Z.log2 x - 52 in
   let m := Z.shiftr x e in
   let low := 4 * x - (if m =? 2 ^ 52 then 2 ^ e else 2 ^ (e + 1)) in
   let high := 4 * x + 2 ^ (e + 1) in
   if Z.even m then (low <=? 4 * c) && (4 * c <=? high)
   else (low <? 4 * c) && (4 * c <? high))%Z.

(** The multiple of [p] that is read back as [x] and is nearest to [x]. *)
Definition nearest_multiple (x p : Z) : option Z :=
  (let below := x / p * p in
   let above := below + p in
   match reads_as x below, reads_as x above with
   | true, true => Some (if x - below <=? above - x then below else above)
   | true, false => Some below
   | false, true => Some above
   | false, false => None
   end)%Z.

(** The decimal with the fewest significant digits that is read back as
    [x], and among those the nearest to [x]: the nearest multiple of the
    largest power of ten that has one, with the exponent of that power. *)
Fixpoint shortest_decimal (x : Z) (j : nat) : Z * Z :=
  match nearest_multiple x (10 ^ Z.of_nat j), j with
  | Some c, _ => (c, Z.of_nat j)
  | None, O => (x, 0%Z)
  | None, S j' => shortest_decimal x j'
  end.

(** Number::toString of a Number [x > 0] with an integer value: with [n]
    the number of digits before the decimal point and [k] the number of
    significant digits, the digits followed by [n - k] zeros when
    [n <= 21], and otherwise the first digit, a point before the other
    digits if there are any, ['e+'] and [n - 1]. *)
Definition positive_to_string (x : Z) : string :=
  (if x <? 2 ^ 53 then pretty x
   else
     let '(c, j) := shortest_decimal x (Z.to_nat (Z.log2 x / 3 + 2)) in
     let n := Z.of_nat (String.length (pretty c)) in
     if n <=? 21 then pretty c
     else
       match pretty (c / 10 ^ j) with
       | String d "" => String d ("e+" ++ pretty (n - 1))
       | String d ds => String d ("." ++ ds ++ "e+" ++ pretty (n - 1))
       | "" => ""
       end)%Z.

(** Number::toString of the Number that the integer [n] denotes. *)
Definition number_to_string (n : Z) : string :=
  match n with
  | Z0 => "0"
  | Zpos _ => match nearest_double n with
              | Some x => positive_to_string x
              | None => "Infinity"
              end
  | Zneg _ => match nearest_double (- n) with
              | Some x => "-" ++ positive_to_string x
              | None => "-Infinity"
              end
  end.

(** ToString, as applied by ["prefix" + v]. *)
Definition js_to_string (v : JsVal) : string :=
  match v with
  | VUndefined => "undefined"
  | VNull => "null"
  | VBool true => "true"
  | VBool false => "false"
  | VNum n => number_to_string n
  | VNaN => "NaN"
  | VStr s => s
  | VRef _ => "[object Object]"
  end.

(** The store of objects: an object is a finite map from property names to
    values. *)
Definition alloc (o : gmap string JsVal) (h : gmap positive (gmap string JsVal))
  : positive * gmap positive (gmap string JsVal) :=
  let l := fresh (dom h) in (l, <[l := o]> h).

(** [v.k]: a [TypeError] on [undefined] and [null], [undefined] for a
    property that is not there. *)
Definition get_field (h : gmap positive (gmap string JsVal)) (v : JsVal) (k : string)
  : option JsVal :=
  match v with
  | VUndefined | VNull => None
  | VRef l => o ← h !! l; Some (default VUndefined (o !! k))
  | _ => Some VUndefined
  end.

Definition is_object (h : gmap positive (gmap string JsVal)) (v : JsVal) : Prop :=
  ∃ l o, v = VRef l ∧ h !! l = Some o.

End Js.
Export Js.

(** ** The application object and its collaborators *)

(** The callbacks of the two plugins, named after what they are bound to.
    A listener of the event bus is one of the closures passed to [this.on]
    and [this.once]; an inbound handler is one of the functions bound in
    [messenger.on({...})]. *)
Inductive Listener : Type :=
| OnLearningEvent     (* container: forward 'learningEvent' *)
| OnAnalyticEvent     (* container: forward 'analyticEvent' *)
| OnLoaded            (* container: send 'loadDone' *)
| OnConfigLoaded      (* learning: install the spec *)
| OnEndGame           (* learning: learning.endGame(exitType) *)
| OnInit.             (* learning: learning.startGame() *)

Inductive Inbound : Type :=
| SoundMuted
| CaptionsMuted
| ContextMuted (context : string)
| CaptionsStyles
| Pause
| SinglePlay
| PlayOptions
| Close.

#[global] Instance Listener_eq_dec : EqDecision Listener.
Proof. solve_decision. Defined.
#[global] Instance Inbound_eq_dec : EqDecision Inbound.
Proof. solve_decision. Defined.

(** One subscription of the event bus. *)
Record Subscription : Type := {
  sub_name : string;
  sub_once : bool;
  sub_listener : Listener
}.

(** The messenger (Bellhop), as far as the plugin looks at it: the
    [supported] flag and the handlers given to [on]. *)
Record Messenger : Type := {
  supported : bool;
  inbound : list (string * Inbound)
}.

(** [this.sound]: the global mute flag and the mute flag of each context. *)
Record Sound : Type := {
  sound_muteAll : bool;
  sound_contexts : gmap string bool
}.

(** [textField]: a DOM element has a [nodeName]. *)
Record TextField : Type := {
  nodeName : JsVal;
  className : string
}.

Record Captions : Type := {
  captions_muteAll : bool;
  textField : option TextField
}.

(** [this.learning]: the dispatcher, with the field the plugin assigns. *)
Record Learning : Type := {
  learning_debug : bool;
  learning_spec : JsVal;
  learning_bubbles : bool                   (* on('learningEvent', ...) was called *)
}.

Inductive UnloadHandler : Type := OnWindowUnload.

Record Window : Type := {
  onunload : option UnloadHandler;
  onbeforeunload : option UnloadHandler
}.

(** Calls made on the collaborators, in order. *)
Inductive Effect : Type :=
| ETrigger (name : string) (data : JsVal)   (* this.trigger(name, data) *)
| ESend (name : string) (data : JsVal)      (* messenger.send(name, data) *)
| EConnect                                  (* messenger.connect() *)
| EMessengerDestroy                         (* messenger.destroy() *)
| EVisibilityDestroy                        (* _pageVisibility.destroy() *)
| EDestroy                                  (* this.destroy() *)
| ELearningAddMap (dictionary : JsVal)      (* learning.addMap(d) *)
| ELearningEndGame (exitType : JsVal)       (* learning.endGame(t) *)
| ELearningStartGame                        (* learning.startGame() *)
| ELearningDestroy.                         (* learning.destroy() *)

#[global] Instance Effect_eq_dec : EqDecision Effect.
Proof. solve_decision. Defined.

Record App : Type := {
  paused : bool;
  enabled : bool;
  autoPause : bool;
  singlePlay : bool;
  playOptions : JsVal;
  options : gmap string JsVal;
  heap : gmap positive (gmap string JsVal);
  messenger : option Messenger;
  pageVisibility : bool;                    (* a watcher is installed *)
  sound : option Sound;
  captions : option Captions;
  learning : option Learning;
  hints : JsVal;
  subscriptions : list Subscription;
  window : Window;
  destroyed : bool;
  log : list Effect
}.

(** Field assignments. *)
Definition set_paused (v : bool) (a : App) : App :=
  Build_App v (enabled a) (autoPause a) (singlePlay a) (playOptions a) (options a)
    (heap a) (messenger a) (pageVisibility a) (sound a) (captions a) (learning a)
    (hints a) (subscriptions a) (window a) (destroyed a) (log a).
Definition set_enabled (v : bool) (a : App) : App :=
  Build_App (paused a) v (autoPause a) (singlePlay a) (playOptions a) (options a)
    (heap a) (messenger a) (pageVisibility a) (sound a) (captions a) (learning a)
    (hints a) (subscriptions a) (window a) (destroyed a) (log a).
Definition set_autoPause (v : bool) (a : App) : App :=
  Build_App (paused a) (enabled a) v (singlePlay a) (playOptions a) (options a)
    (heap a) (messenger a) (pageVisibility a) (sound a) (captions a) (learning a)
    (hints a) (subscriptions a) (window a) (destroyed a) (log a).
Definition set_singlePlay (v : bool) (a : App) : App :=
  Build_App (paused a) (enabled a) (autoPause a) v (playOptions a) (options a)
    (heap a) (messenger a) (pageVisibility a) (sound a) (captions a) (learning a)
    (hints a) (subscriptions a) (window a) (destroyed a) (log a).
Definition set_playOptions (v : JsVal) (a : App) : App :=
  Build_App (paused a) (enabled a) (autoPause a) (singlePlay a) v (options a)
    (heap a) (messenger a) (pageVisibility a) (sound a) (captions a) (learning a)
    (hints a) (subscriptions a) (window a) (destroyed a) (log a).
Definition set_options (v : gmap string JsVal) (a : App) : App :=
  Build_App (paused a) (enabled a) (autoPause a) (singlePlay a) (playOptions a) v
    (heap a) (messenger a) (pageVisibility a) (sound a) (captions a) (learning a)
    (hints a) (subscriptions a) (window a) (destroyed a) (log a).
Definition set_heap (v : gmap positive (gmap string JsVal)) (a : App) : App :=
  Build_App (paused a) (enabled a) (autoPause a) (singlePlay a) (playOptions a) (options a)
    v (messenger a) (pageVisibility a) (sound a) (captions a) (learning a)
    (hints a) (subscriptions a) (window a) (destroyed a) (log a).
Definition set_messenger (v : option Messenger) (a : App) : App :=
  Build_App (paused a) (enabled a) (autoPause a) (singlePlay a) (playOptions a) (options a)
    (heap a) v (pageVisibility a) (sound a) (captions a) (learning a)
    (hints a) (subscriptions a) (window a) (destroyed a) (log a).
Definition set_pageVisibility (v : bool) (a : App) : App :=
  Build_App (paused a) (enabled a) (autoPause a) (singlePlay a) (playOptions a) (options a)
    (heap a) (messenger a) v (sound a) (captions a) (learning a)
    (hints a) (subscriptions a) (window a) (destroyed a) (log a).
Definition set_sound (v : option Sound) (a : App) : App :=
  Build_App (paused a) (enabled a) (autoPause a) (singlePlay a) (playOptions a) (options a)
    (heap a) (messenger a) (pageVisibility a) v (captions a) (learning a)
    (hints a) (subscriptions a) (window a) (destroyed a) (log a).
Definition set_captions (v : option Captions) (a : App) : App :=
  Build_App (paused a) (enabled a) (autoPause a) (singlePlay a) (playOptions a) (options a)
    (heap a) (messenger a) (pageVisibility a) (sound a) v (learning a)
    (hints a) (subscriptions a) (window a) (destroyed a) (log a).
Definition set_learning (v : option Learning) (a : App) : App :=
  Build_App (paused a) (enabled a) (autoPause a) (singlePlay a) (playOptions a) (options a)
    (heap a) (messenger a) (pageVisibility a) (sound a) (captions a) v
    (hints a) (subscriptions a) (window a) (destroyed a) (log a).
Definition set_subscriptions (v : list Subscription) (a : App) : App :=
  Build_App (paused a) (enabled a) (autoPause a) (singlePlay a) (playOptions a) (options a)
    (heap a) (messenger a) (pageVisibility a) (sound a) (captions a) (learning a)
    (hints a) v (window a) (destroyed a) (log a).
Definition set_window (v : Window) (a : App) : App :=
  Build_App (paused a) (enabled a) (autoPause a) (singlePlay a) (playOptions a) (options a)
    (heap a) (messenger a) (pageVisibility a) (sound a) (captions a) (learning a)
    (hints a) (subscriptions a) v (destroyed a) (log a).
Definition set_destroyed (v : bool) (a : App) : App :=
  Build_App (paused a) (enabled a) (autoPause a) (singlePlay a) (playOptions a) (options a)
    (heap a) (messenger a) (pageVisibility a) (sound a) (captions a) (learning a)
    (hints a) (subscriptions a) (window a) v (log a).
Definition set_log (v : list Effect) (a : App) : App :=
  Build_App (paused a) (enabled a) (autoPause a) (singlePlay a) (playOptions a) (options a)
    (heap a) (messenger a) (pageVisibility a) (sound a) (captions a) (learning a)
    (hints a) (subscriptions a) (window a) (destroyed a) v.

Definition emit (e : Effect) (a : App) : App := set_log (log a ++ [e]) a.

(** *** The messenger

    [this.messenger.send(name, data)]: a [TypeError] once the field is
    [null]; otherwise the call is made, whatever the messenger then does
    with it. *)
Definition messenger_send (name : string) (data : JsVal) (a : App) : option App :=
  match messenger a with
  | Some _ => Some (emit (ESend name data) a)
  | None => None
  end.

(** [this.messenger.on({...})] *)
Definition messenger_on (handlers : list (string * Inbound)) (a : App) : option App :=
  m ← messenger a;
  Some (set_messenger
          (Some {| supported := supported m; inbound := inbound m ++ handlers |}) a).

(** *** The listeners of the two plugins *)

(** The bodies of the closures given to [this.on] and [this.once]
    (container plugin, lines 61-76; learning plugin, lines 38-63). *)
Definition run_listener (l : Listener) (data : JsVal) (a : App) : option App :=
  match l with
  | OnLearningEvent => messenger_send "learningEvent" data a
  | OnAnalyticEvent => messenger_send "analyticEvent" data a
  | OnLoaded => messenger_send "loadDone" VUndefined a
  | OnConfigLoaded =>
      spec ← get_field (heap a) data "spec";
      if truthy spec then
        lrn ← learning a;
        dictionary ← get_field (heap a) data "specDictionary";
        let a1 := emit (ELearningAddMap (js_or dictionary VNull)) a in
        Some (set_learning
                (Some {| learning_debug := learning_debug lrn;
                         learning_spec := spec;
                         learning_bubbles := learning_bubbles lrn |}) a1)
      else Some a
  | OnEndGame =>
      _ ← learning a;
      Some (emit (ELearningEndGame data) a)
  | OnInit =>
      _ ← learning a;
      Some (emit ELearningStartGame a)
  end.

(** *** The event bus *)

(** Modelled from the spec: the application's event bus ([on], [once],
    [trigger]) is not among the sources.  The specification gives it as
    publish/subscribe with ordinary and single-shot subscription, the
    handlers of an event running in subscription order. *)
Definition on (name : string) (l : Listener) (a : App) : App :=
  set_subscriptions
    (subscriptions a ++ [{| sub_name := name; sub_once := false; sub_listener := l |}]) a.

(** Modelled from the spec: [once] of the event bus, the single-shot
    subscription. *)
Definition once (name : string) (l : Listener) (a : App) : App :=
  set_subscriptions
    (subscriptions a ++ [{| sub_name := name; sub_once := true; sub_listener := l |}]) a.

(** The listeners called for one event, one after the other; a listener
    that throws ends the dispatch. *)
Fixpoint dispatch (ls : list Listener) (data : JsVal) (a : App) : option App :=
  match ls with
  | [] => Some a
  | l :: ls' => a' ← run_listener l data a; dispatch ls' data a'
  end.

Definition subscribed_to (name : string) (s : Subscription) : bool :=
  String.eqb (sub_name s) name.

Definition single_shot_for (name : string) (s : Subscription) : bool :=
  subscribed_to name s && sub_once s.

(** Modelled from the spec: [trigger] of the event bus.  The listeners
    subscribed to the event are called in subscription order with the
    payload; a single-shot subscription is dropped when its event is
    triggered. *)
Definition trigger (name : string) (data : JsVal) (a : App) : option App :=
  let called := sub_listener <$> List.filter (subscribed_to name) (subscriptions a) in
  let kept := List.filter (λ s, negb (single_shot_for name s)) (subscriptions a) in
  dispatch called data (set_subscriptions kept (emit (ETrigger name data) a)).

(** Modelled from the spec: [Application.destroy] is not among the sources;
    the specification says of it only that [endGame] "destroys the
    application". *)
Definition destroy (a : App) : App := set_destroyed true (emit EDestroy a).

(** Modelled from the spec: the options registry, [add(name, default,
    persist)], is not among the sources; an option that was not given keeps
    its default. *)
Definition options_add (name : string) (dflt : JsVal) (a : App) : App :=
  match options a !! name with
  | Some _ => a
  | None => set_options (<[name := dflt]> (options a)) a
  end.

(** [this.options.name] *)
Definition option_value (name : string) (a : App) : JsVal :=
  default VUndefined (options a !! name).

(** Modelled from the spec: [Object.merge] is not among the sources; the
    specification gives it as a shallow merge into the target, in which
    the keys of the source overwrite and the other keys of the target are
    kept.  It is given for a target that is an object. *)
Definition Object_merge (target : JsVal) (source : gmap string JsVal)
    (h : gmap positive (gmap string JsVal)) : option (gmap positive (gmap string JsVal)) :=
  match target with
  | VRef l => t ← h !! l; Some (<[l := source ∪ t]> h)
  | _ => None
  end.

(** ** The container plugin *)

Module ContainerPlugin.

Definition priority : Z := 5.

(** [endGame(exitType)], installed on the application by [setup]. *)
Definition endGame (exitType : JsVal) (a : App) : option App :=
  a1 ← trigger "endGame" (js_or exitType (VStr "game_completed")) a;
  Some (destroy a1).

(** [singlePlayEnd()], installed on the application by [setup]. *)
Definition singlePlayEnd (a : App) : option App :=
  if singlePlay a then endGame VUndefined a else Some a.

(** [setup]; [container] is what the messenger finds out when it
    connects: whether there is a container to talk to. *)
Definition setup (container : bool) (a : App) : App :=
  let a := options_add "singlePlay" (VBool false) a in
  let a := options_add "playOptions" VNull a in
  let a := set_messenger (Some {| supported := container; inbound := [] |}) a in
  let a := emit EConnect a in
  let a := on "learningEvent" OnLearningEvent a in
  let a := on "analyticEvent" OnAnalyticEvent a in
  let a := once "loaded" OnLoaded a in
  let a := set_singlePlay false a in
  let a := set_playOptions VNull a in
  set_window {| onunload := Some OnWindowUnload;
                onbeforeunload := Some OnWindowUnload |} a.

Definition onWindowUnload (a : App) : option App :=
  let a := set_window {| onunload := None; onbeforeunload := None |} a in
  endGame (VStr "left_site") a.

(** The browser calling one of the two unload hooks of [window]. *)
Inductive UnloadHook : Type := BeforeUnload | Unload.

Definition fire (hook : UnloadHook) (a : App) : option App :=
  let handler := match hook with
                 | BeforeUnload => onbeforeunload (window a)
                 | Unload => onunload (window a)
                 end in
  match handler with
  | Some OnWindowUnload => onWindowUnload a
  | None => Some a
  end.

Fixpoint fire_all (hooks : list UnloadHook) (a : App) : option App :=
  match hooks with
  | [] => Some a
  | hk :: hooks' => a' ← fire hk a; fire_all hooks' a'
  end.

(** Modelled from the spec: [this.sound.contextExists(context)] is not
    among the sources; a context is present when the sound object has a
    mute flag for it. *)
Definition contextExists (context : string) (a : App) : bool :=
  match sound a with
  | Some s => bool_decide (is_Some (sound_contexts s !! context))
  | None => false
  end.

Definition inbound_handlers : list (string * Inbound) :=
  [ ("soundMuted", SoundMuted);
    ("captionsMuted", CaptionsMuted);
    ("musicMuted", ContextMuted "music");
    ("voMuted", ContextMuted "vo");
    ("sfxMuted", ContextMuted "sfx");
    ("captionsStyles", CaptionsStyles);
    ("pause", Pause);
    ("singlePlay", SinglePlay);
    ("playOptions", PlayOptions);
    ("close", Close) ].

(** The object sent with 'features'. *)
Definition features (a : App) : gmap string JsVal :=
  let hasSound := bool_decide (is_Some (sound a)) in
  list_to_map
    [ ("learning", VBool (bool_decide (is_Some (learning a))));
      ("sound", VBool hasSound);
      ("hints", VBool (js_bool (hints a)));
      ("music", VBool (hasSound && contextExists "music" a));
      ("vo", VBool (hasSound && contextExists "vo" a));
      ("sfx", VBool (hasSound && contextExists "sfx" a));
      ("captions", VBool (bool_decide (is_Some (captions a)))) ].

(** [preload(done)]; the continuation [done] is the return. *)
Definition preload (a : App) : option App :=
  let a := set_singlePlay (js_bool (option_value "singlePlay" a)) a in
  let a :=
    if truthy (option_value "playOptions" a)
    then set_playOptions (option_value "playOptions" a) a
    else let '(l, h) := alloc ∅ (heap a) in
         set_playOptions (VRef l) (set_heap h a) in
  m ← messenger a;
  if supported m then
    a ← messenger_on inbound_handlers a;
    let '(l, h) := alloc (features a) (heap a) in
    a ← messenger_send "features" (VRef l) (set_heap h a);
    let a := set_autoPause false a in
    Some (set_pageVisibility true a)
  else Some a.

(** The callbacks given to the page-visibility watcher: the messenger
    they send to is the one captured when the watcher was made. *)
Definition onShow (a : App) : App :=
  if pageVisibility a then emit (ESend "focus" (VBool true)) a else a.

Definition onHide (a : App) : App :=
  if pageVisibility a then emit (ESend "focus" (VBool false)) a else a.

Definition onPause (data : JsVal) (a : App) : option App :=
  let a := set_paused (js_bool data) a in
  Some (set_enabled (negb (paused a)) a).

Definition onSoundMuted (data : JsVal) (a : App) : option App :=
  s ← sound a;
  Some (set_sound (Some {| sound_muteAll := js_bool data;
                           sound_contexts := sound_contexts s |}) a).

Definition onCaptionsMuted (data : JsVal) (a : App) : option App :=
  c ← captions a;
  Some (set_captions (Some {| captions_muteAll := js_bool data;
                              textField := textField c |}) a).

(** Modelled from the spec: [sound.setContextMute(context, muted)] is not
    among the sources; it sets the mute flag of the context. *)
Definition setContextMute (context : string) (muted : bool) (s : Sound) : Sound :=
  {| sound_muteAll := sound_muteAll s;
     sound_contexts := <[context := muted]> (sound_contexts s) |}.

Definition onContextMuted (context : string) (data : JsVal) (a : App) : option App :=
  s ← sound a;
  Some (set_sound (Some (setContextMute context (js_bool data) s)) a).

Definition onCaptionsStyles (data : JsVal) (a : App) : option App :=
  let styles := data in
  match captions a with
  | Some c =>
      match textField c with
      | Some tf =>
          if truthy (nodeName tf) then
            size ← get_field (heap a) styles "size";
            background ← get_field (heap a) styles "background";
            color ← get_field (heap a) styles "color";
            edge ← get_field (heap a) styles "edge";
            font ← get_field (heap a) styles "font";
            align ← get_field (heap a) styles "align";
            let cls := ("size-" ++ js_to_string size ++ " " ++
                        "bg-" ++ js_to_string background ++ " " ++
                        "color-" ++ js_to_string color ++ " " ++
                        "edge-" ++ js_to_string edge ++ " " ++
                        "font-" ++ js_to_string font ++ " " ++
                        "align-" ++ js_to_string align)%string in
            Some (set_captions
                    (Some {| captions_muteAll := captions_muteAll c;
                             textField := Some {| nodeName := nodeName tf;
                                                  className := cls |} |}) a)
          else Some a
      | None => Some a
      end
  | None => Some a
  end.

(** [e.data || {}], read as the object to merge from. *)
Definition merge_source (data : JsVal) (a : App) : option (gmap string JsVal) :=
  if truthy data then
    match data with
    | VRef l => heap a !! l
    | _ => None
    end
  else Some ∅.

Definition onPlayOptions (data : JsVal) (a : App) : option App :=
  source ← merge_source data a;
  h ← Object_merge (playOptions a) source (heap a);
  Some (set_heap h a).

Definition onSinglePlay (a : App) : option App :=
  Some (set_singlePlay true a).

Definition onClose (a : App) : option App :=
  endGame (VStr "closed_container") a.

Definition run_inbound (h : Inbound) (data : JsVal) (a : App) : option App :=
  match h with
  | SoundMuted => onSoundMuted data a
  | CaptionsMuted => onCaptionsMuted data a
  | ContextMuted context => onContextMuted context data a
  | CaptionsStyles => onCaptionsStyles data a
  | Pause => onPause data a
  | SinglePlay => onSinglePlay a
  | PlayOptions => onPlayOptions data a
  | Close => onClose a
  end.

Fixpoint run_inbounds (hs : list Inbound) (data : JsVal) (a : App) : option App :=
  match hs with
  | [] => Some a
  | h :: hs' => a' ← run_inbound h data a; run_inbounds hs' data a'
  end.

(** The messenger delivering a message of the container to the
    handlers registered for its name. *)
Definition receive (name : string) (data : JsVal) (a : App) : option App :=
  match messenger a with
  | Some m =>
      run_inbounds
        (snd <$> List.filter (λ p, String.eqb (fst p) name) (inbound m)) data a
  | None => Some a
  end.

Definition teardown (a : App) : option App :=
  let a := if pageVisibility a
           then set_pageVisibility false (emit EVisibilityDestroy a)
           else a in
  a ← messenger_send "endGame" VUndefined a;
  let a := emit EMessengerDestroy a in
  Some (set_messenger None a).

End ContainerPlugin.

(** ** The learning plugin *)

Module LearningPlugin.

Definition priority : Z := 10.

(** Modelled from the spec: the dispatcher class is not among the sources.
    It is constructed with the application and a debug flag, and its spec
    is supplied later, by the first 'configLoaded'; its methods are seen
    through the calls the plugin makes on it. *)
Definition new_Learning (debug : bool) : Learning :=
  {| learning_debug := debug; learning_spec := VUndefined; learning_bubbles := false |}.

(** [setup]; [debug] is the global [DEBUG]. *)
Definition setup (debug : bool) (a : App) : App :=
  let a := set_learning (Some (new_Learning debug)) a in
  let a := once "configLoaded" OnConfigLoaded a in
  let a := match learning a with
           | Some lrn => set_learning
                           (Some {| learning_debug := learning_debug lrn;
                                    learning_spec := learning_spec lrn;
                                    learning_bubbles := true |}) a
           | None => a
           end in
  let a := once "endGame" OnEndGame a in
  once "init" OnInit a.

(** The callback given to [this.learning.on('learningEvent', ...)]. *)
Definition onLearningEvent (data : JsVal) (a : App) : option App :=
  trigger "learningEvent" data a.

Definition teardown (a : App) : App :=
  match learning a with
  | Some _ => set_learning None (emit ELearningDestroy a)
  | None => a
  end.

End LearningPlugin.

(** ** Reading the log *)

(** The payloads of the events triggered under [name], in order. *)
Definition triggered (name : string) (es : list Effect) : list JsVal :=
  omap (λ e, match e with
             | ETrigger n d => if String.eqb n name then Some d else None
             | _ => None
             end) es.

(** The payloads of the messages sent under [name], in order. *)
Definition sent (name : string) (es : list Effect) : list JsVal :=
  omap (λ e, match e with
             | ESend n d => if String.eqb n name then Some d else None
             | _ => None
             end) es.

(** The dictionaries given to [learning.addMap], in order. *)
Definition added_maps (es : list Effect) : list JsVal :=
  omap (λ e, match e with ELearningAddMap d => Some d | _ => None end) es.

(** The calls a listener of the two plugins can make: a send on the
    messenger or a call on the dispatcher; never a trigger, never a
    destroy. *)
Definition from_listener (e : Effect) : bool :=
  match e with
  | ESend _ _ | ELearningAddMap _ | ELearningEndGame _ | ELearningStartGame => true
  | _ => false
  end.

(** The part of the state a listener can change: the log, by calls of its
    own, and the dispatcher, which stays in place. *)
Definition listener_step (a a' : App) (mid : list Effect) : Prop :=
  a' = set_learning (learning a') (set_log (log a ++ mid) a)
  ∧ Forall (λ e, from_listener e = true) mid
  ∧ (is_Some (learning a') ↔ is_Some (learning a)).

(** What a listener needs in order not to fail on a missing collaborator. *)
Definition listener_ready (l : Listener) (a : App) : bool :=
  match l with
  | OnLearningEvent | OnAnalyticEvent | OnLoaded => bool_decide (is_Some (messenger a))
  | OnEndGame | OnInit => bool_decide (is_Some (learning a))
  | OnConfigLoaded => false
  end.

(** Every listener subscribed to [name] has its collaborator. *)
Definition ready_for (name : string) (a : App) : bool :=
  forallb (λ s, listener_ready (sub_listener s) a)
          (List.filter (subscribed_to name) (subscriptions a)).

(** Emitting a sequence of events on the bus. *)
Fixpoint trigger_all (evs : list (string * JsVal)) (a : App) : option App :=
  match evs with
  | [] => Some a
  | (name, data) :: evs' => a' ← trigger name data a; trigger_all evs' a'
  end.

(** The payload of the first event of the sequence emitted under [name]. *)
Fixpoint first_event (name : string) (evs : list (string * JsVal)) : option JsVal :=
  match evs with
  | [] => None
  | (n, d) :: evs' => if String.eqb n name then Some d else first_event name evs'
  end.

(** An application on which no plugin has been set up yet, with the
    options the page gave it. *)
Definition new_app (opts : gmap string JsVal) : App :=
  {| paused := false; enabled := true; autoPause := true; singlePlay := false;
     playOptions := VUndefined; options := opts; heap := ∅; messenger := None;
     pageVisibility := false; sound := None; captions := None; learning := None;
     hints := VUndefined; subscriptions := []; window := {| onunload := None;
     onbeforeunload := None |}; destroyed := false; log := [] |}.

(** The caption text element: [captions.textField], when it is there and
    is a DOM element (has a [nodeName]). *)
Definition text_element (a : App) : option TextField :=
  c ← captions a;
  tf ← textField c;
  if truthy (nodeName tf) then Some tf else None.

(** What [preload] does to the two fields it copies from the options. *)
Definition copy_options (a : App) : App :=
  let a := set_singlePlay (js_bool (option_value "singlePlay" a)) a in
  if truthy (option_value "playOptions" a)
  then set_playOptions (option_value "playOptions" a) a
  else set_playOptions (VRef (alloc ∅ (heap a)).1) (set_heap (alloc ∅ (heap a)).2 a).

(** The two plugins set up in the order of their priorities, the container
    plugin (5) before the learning plugin (10). *)
Definition setup_plugins (container debug : bool) (a : App) : App :=
  LearningPlugin.setup debug (ContainerPlugin.setup container a).

(** *** Single-shot subscriptions *)

Definition has_listener (l : Listener) (s : Subscription) : bool :=
  bool_decide (sub_listener s = l).

(** The listener [l] is subscribed once, single-shot, to [name], and
    nowhere else: what [this.once(name, l)] leaves on a bus that did not
    know [l]. *)
Definition armed (name : string) (l : Listener) (a : App) : Prop :=
  List.filter (has_listener l) (subscriptions a) =
  [{| sub_name := name; sub_once := true; sub_listener := l |}].

(** The listener [l] is not subscribed. *)
Definition spent (l : Listener) (a : App) : Prop :=
  List.filter (has_listener l) (subscriptions a) = [].

(** Some event of the sequence is emitted under [name]. *)
Definition emitted (name : string) (evs : list (string * JsVal)) : bool :=
  existsb (λ ev, String.eqb name ev.1) evs.

(** The dispatcher and the dictionaries given to it are the same in [a']
    as in [a]. *)
Definition untouched (a a' : App) : Prop :=
  learning a' = learning a ∧ added_maps (log a') = added_maps (log a).

(** Between [a] and [a'] the spec of [config] was installed on the
    dispatcher, once, if [config.spec] is truthy; otherwise nothing was
    installed. *)
Definition installs (config : JsVal) (a a' : App) : Prop :=
  ∃ spec,
    get_field (heap a) config "spec" = Some spec
    ∧ if truthy spec then
        ∃ lrn dictionary,
          learning a = Some lrn
          ∧ get_field (heap a) config "specDictionary" = Some dictionary
          ∧ learning a' = Some {| learning_debug := learning_debug lrn;
                                  learning_spec := spec;
                                  learning_bubbles := learning_bubbles lrn |}
          ∧ added_maps (log a') = added_maps (log a) ++ [js_or dictionary VNull]
      else untouched a a'.

(** *** Sample applications *)

(** The style payload of the specification's example. *)
Definition sample_styles : gmap string JsVal :=
  list_to_map
    [ ("size", VStr "lg"); ("background", VStr "black"); ("color", VStr "white");
      ("edge", VStr "none"); ("font", VStr "arial"); ("align", VStr "left") ].

(** An application with a caption text element and the sample payload in
    the store. *)
Definition captioned_app : App :=
  set_heap {[ 1%positive := sample_styles ]}
    (set_captions
       (Some {| captions_muteAll := false;
                textField := Some {| nodeName := VStr "DIV"; className := "" |} |})
       (new_app ∅)).

(** An application whose [playOptions] is the object [{a: 1}], with the
    objects [{b: 2}] and [{a: 3}] in the store. *)
Definition play_app : App :=
  set_playOptions (VRef 1)
    (set_heap (<[ 1%positive := {[ "a" := VNum 1 ]} ]>
                 (<[ 2%positive := {[ "b" := VNum 2 ]} ]>
                    {[ 3%positive := {[ "a" := VNum 3 ]} ]}))
       (new_app ∅)).

(** An application set up inside a container, with the default options. *)
Definition contained_app : App := ContainerPlugin.setup true (new_app ∅).

(** An application set up without a container, with the default options. *)
Definition standalone_app : App := ContainerPlugin.setup false (new_app ∅).

(** An application set up inside a container, whose option [playOptions]
    is the object [{a: 1}]. *)
Definition optioned_app : App :=
  ContainerPlugin.setup true
    (set_heap {[ 1%positive := {[ "a" := VNum 1 ]} ]}
       (new_app {[ "playOptions" := VRef 1 ]})).

(** An application set up inside a container, whose option [playOptions]
    is the string ['easy']. *)
Definition labelled_app : App :=
  ContainerPlugin.setup true (new_app {[ "playOptions" := VStr "easy" ]}).

(** An application, not yet set up, with two configurations in the store:
    [{spec: 'first', specDictionary: {}}] and [{spec: 'second'}]. *)
Definition configured_app : App :=
  set_heap (<[ 1%positive := <[ "spec" := VStr "first" ]>
                               {[ "specDictionary" := VRef 3 ]} ]>
              (<[ 2%positive := {[ "spec" := VStr "second" ]} ]>
                 {[ 3%positive := ∅ ]}))
    (new_app ∅).

(** Both configurations loaded, then 'loaded' emitted twice. *)
Definition sample_events : list (string * JsVal) :=
  [ ("configLoaded", VRef 1); ("configLoaded", VRef 2);
    ("loaded", VUndefined); ("loaded", VUndefined) ].

(** *** Further readings of the log and of the bus *)

(** The exit types given to [learning.endGame], in order. *)
Definition ended_games (es : list Effect) : list JsVal :=
  omap (λ e, match e with ELearningEndGame t => Some t | _ => None end) es.

(** One entry for each call of [learning.startGame]. *)
Definition started_games (es : list Effect) : list unit :=
  omap (λ e, match e with ELearningStartGame => Some tt | _ => None end) es.

(** The names of the messages sent, in order. *)
Definition sent_names (es : list Effect) : list string :=
  omap (λ e, match e with ESend n _ => Some n | _ => None end) es.

(** The listener [l] is subscribed once, for good, to [name], and nowhere
    else: what [this.on(name, l)] leaves on a bus that did not know [l]. *)
Definition wired (name : string) (l : Listener) (a : App) : Prop :=
  List.filter (has_listener l) (subscriptions a) =
  [{| sub_name := name; sub_once := false; sub_listener := l |}].

(** The payloads of the events of the sequence emitted under [name]. *)
Fixpoint occurrences (name : string) (evs : list (string * JsVal)) : list JsVal :=
  match evs with
  | [] => []
  | (n, d) :: evs' =>
      if String.eqb name n then d :: occurrences name evs' else occurrences name evs'
  end.

(** The listeners of the container plugin, which all call
    [this.messenger.send]. *)
Definition needs_messenger (l : Listener) : bool :=
  match l with
  | OnLearningEvent | OnAnalyticEvent | OnLoaded => true
  | _ => false
  end.

(** The listeners of the learning plugin that call a method of
    [this.learning] whatever the payload. *)
Definition needs_learning (l : Listener) : bool :=
  match l with
  | OnEndGame | OnInit => true
  | _ => false
  end.

(** A game that starts, is ended twice and started again, with events of
    the game between. *)
Definition lifecycle_events : list (string * JsVal) :=
  [ ("init", VUndefined); ("learningEvent", VNum 1); ("analyticEvent", VStr "click");
    ("learningEvent", VNum 2); ("endGame", VStr "quit"); ("endGame", VStr "again");
    ("init", VUndefined) ].

(** An application set up inside a container, whose option [playOptions]
    is the object [{a: 1}], with the payload [{b: 2}] in the store. *)
Definition optioned_play_app : App :=
  ContainerPlugin.setup true
    (set_heap (<[ 1%positive := {[ "a" := VNum 1 ]} ]>
                 {[ 2%positive := {[ "b" := VNum 2 ]} ]})
       (new_app {[ "playOptions" := VRef 1 ]})).

(** *** The life of an application *)

(** What can happen to an application once the plugins are set up: an
    event is emitted on the bus, the container sends a message, the
    framework calls [preload] or a [teardown], the game calls
    [singlePlayEnd] or [endGame], the browser calls an unload hook, the
    page is shown or hidden, the dispatcher emits a learning event. *)
Inductive Op : Type :=
| Emit (name : string) (data : JsVal)
| Message (name : string) (data : JsVal)
| CallPreload
| CallTeardown
| CallLearningTeardown
| CallSinglePlayEnd
| CallEndGame (exitType : JsVal)
| BrowserUnload (hook : ContainerPlugin.UnloadHook)
| PageShown
| PageHidden
| DispatcherEvent (data : JsVal).

Definition run_op (op : Op) (a : App) : option App :=
  match op with
  | Emit name data => trigger name data a
  | Message name data => ContainerPlugin.receive name data a
  | CallPreload => ContainerPlugin.preload a
  | CallTeardown => ContainerPlugin.teardown a
  | CallLearningTeardown => Some (LearningPlugin.teardown a)
  | CallSinglePlayEnd => ContainerPlugin.singlePlayEnd a
  | CallEndGame exitType => ContainerPlugin.endGame exitType a
  | BrowserUnload hook => ContainerPlugin.fire hook a
  | PageShown => Some (ContainerPlugin.onShow a)
  | PageHidden => Some (ContainerPlugin.onHide a)
  | DispatcherEvent data => LearningPlugin.onLearningEvent data a
  end.

Fixpoint run_ops (ops : list Op) (a : App) : option App :=
  match ops with
  | [] => Some a
  | op :: ops' => a' ← run_op op a; run_ops ops' a'
  end.

(** The calls the plugins make outside their bus listeners. *)
Definition plugin_effect (e : Effect) : bool :=
  match e with
  | ETrigger _ _ | EConnect | EMessengerDestroy | EVisibilityDestroy | EDestroy
  | ELearningDestroy => true
  | ESend name _ =>
      String.eqb name "features" || String.eqb name "focus" || String.eqb name "endGame"
  | _ => false
  end.

(** The six names under which the container plugin sends. *)
Definition outbound_names : list string :=
  ["learningEvent"; "analyticEvent"; "loadDone"; "features"; "focus"; "endGame"].

(** The messages sent under any other name. *)
Definition unexpected_sends (es : list Effect) : list string :=
  omap (λ e, match e with
             | ESend n _ => if bool_decide (n ∈ outbound_names) then None else Some n
             | _ => None
             end) es.

(** The operations an application goes through, in order. *)
Definition sample_life : list Op :=
  [ CallPreload; Emit "loaded" VUndefined; Emit "init" VUndefined;
    DispatcherEvent (VNum 7); Message "pause" (VBool true); PageHidden;
    Emit "loaded" VUndefined; Message "close" VUndefined;
    BrowserUnload ContainerPlugin.Unload; CallEndGame (VStr "again");
    CallLearningTeardown; CallTeardown ].

(** The single-shot listener [l] of event [name], observed through [obs]:
    either it is still to run and nothing was observed beyond [base], or
    it has run once, on some payload [d] that added [out d], and it is
    subscribed no more. *)
Definition once_state {X : Type} (name : string) (l : Listener)
    (obs : list Effect → list X) (out : JsVal → list X)
    (base : list X) (a : App) : Prop :=
  (armed name l a ∧ obs (log a) = base)
  ∨ (spent l a ∧ ∃ d, obs (log a) = base ++ out d).



(** ** Properties *)

(** *** What the listeners and the bus do to the state *)

Lemma set_heap_same (a : App) : set_heap (heap a) a = a.
Proof. by destruct a. Qed.

Lemma listener_step_refl (a : App) : listener_step a a [].
Proof.
  split_and!; [| constructor | done].
  rewrite app_nil_r. by destruct a.
Qed.

Lemma listener_step_trans (a b c : App) (m1 m2 : list Effect) :
  listener_step a b m1 → listener_step b c m2 → listener_step a c (m1 ++ m2).
Proof.
  intros (Hb & F1 & L1) (Hc & F2 & L2). split_and!.
  - rewrite Hc, Hb. cbn. by rewrite <- app_assoc.
  - by apply Forall_app.
  - by rewrite L2.
Qed.

Lemma run_listener_step (l : Listener) (d : JsVal) (a a' : App) :
  run_listener l d a = Some a' → ∃ mid, listener_step a a' mid.
Proof.
  unfold run_listener, messenger_send. intros H.
  destruct l; simplify_option_eq;
    repeat match goal with
           | H : context [match ?x with _ => _ end] |- _ =>
               destruct x eqn:?; simplify_option_eq
           end;
    try (exists []; apply listener_step_refl);
    (eexists [_]; split_and!;
     [reflexivity | by repeat constructor | cbn; first [done | split; intros _; eauto]]).
Qed.

Lemma dispatch_step (ls : list Listener) (d : JsVal) (a a' : App) :
  dispatch ls d a = Some a' → ∃ mid, listener_step a a' mid.
Proof.
  revert a. induction ls as [|l ls IH]; intros a H; simpl in H.
  - injection H as <-. exists []. apply listener_step_refl.
  - destruct (run_listener l d a) as [b|] eqn:Hl; [|done]. simpl in H.
    destruct (run_listener_step _ _ _ _ Hl) as [m1 H1].
    destruct (IH _ H) as [m2 H2].
    exists (m1 ++ m2). by eapply listener_step_trans.
Qed.

Lemma listener_ready_step (l : Listener) (a a' : App) (mid : list Effect) :
  listener_step a a' mid → listener_ready l a' = listener_ready l a.
Proof.
  intros (Ha & _ & Hl).
  assert (messenger a' = messenger a) as Hm by (by rewrite Ha).
  destruct l; simpl; rewrite ?Hm; try done; by apply bool_decide_ext.
Qed.

Lemma run_listener_ready (l : Listener) (d : JsVal) (a : App) :
  listener_ready l a = true → is_Some (run_listener l d a).
Proof.
  unfold listener_ready, run_listener, messenger_send.
  destruct l; try done; intros [x Hx]%bool_decide_eq_true; rewrite Hx; eauto.
Qed.

Lemma dispatch_ready (ls : list Listener) (d : JsVal) (a : App) :
  forallb (λ l, listener_ready l a) ls = true → is_Some (dispatch ls d a).
Proof.
  revert a. induction ls as [|l ls IH]; intros a H; simpl in *; [eauto|].
  apply andb_true_iff in H as [H1 H2].
  destruct (run_listener_ready l d a H1) as [b Hb]. rewrite Hb. simpl.
  apply IH. destruct (run_listener_step _ _ _ _ Hb) as [mid Hs].
  rewrite forallb_forall in *. intros l' Hl'.
  rewrite (listener_ready_step l' _ _ _ Hs). by apply H2.
Qed.

(** One [trigger]: the event is logged first, the single-shot
    subscriptions of the event are dropped, and what follows in the log
    comes from the listeners. *)
Lemma trigger_shape (name : string) (d : JsVal) (a a' : App) :
  trigger name d a = Some a' →
  ∃ mid,
    a' = set_learning (learning a')
           (set_subscriptions
              (List.filter (λ s, negb (single_shot_for name s)) (subscriptions a))
              (set_log (log a ++ ETrigger name d :: mid) a))
    ∧ Forall (λ e, from_listener e = true) mid
    ∧ (is_Some (learning a') ↔ is_Some (learning a)).
Proof.
  unfold trigger. intros H.
  destruct (dispatch_step _ _ _ _ H) as (mid & Ha & F & L).
  exists mid. split_and!; [|done..].
  rewrite Ha. cbn. by rewrite <- app_assoc.
Qed.

Lemma trigger_ready (name : string) (d : JsVal) (a : App) :
  ready_for name a = true → is_Some (trigger name d a).
Proof.
  unfold ready_for, trigger. intros H. apply dispatch_ready.
  rewrite forallb_forall in *. intros l [s [<- Hs]]%in_map_iff.
  by apply (H s).
Qed.

(** [endGame]: the event, then what its listeners do, then the destroy. *)
Lemma endGame_shape (v : JsVal) (a a' : App) :
  ContainerPlugin.endGame v a = Some a' →
  ∃ mid,
    a' = set_destroyed true
           (set_learning (learning a')
              (set_subscriptions
                 (List.filter (λ s, negb (single_shot_for "endGame" s)) (subscriptions a))
                 (set_log (log a ++ ETrigger "endGame" (js_or v (VStr "game_completed"))
                                     :: mid ++ [EDestroy]) a)))
    ∧ Forall (λ e, from_listener e = true) mid
    ∧ (is_Some (learning a') ↔ is_Some (learning a)).
Proof.
  unfold ContainerPlugin.endGame. intros H.
  destruct (trigger _ _ a) as [b|] eqn:Ht; [|done]. simpl in H. injection H as <-.
  destruct (trigger_shape _ _ _ _ Ht) as (mid & Hb & F & L).
  exists mid. split_and!; [|done..].
  unfold destroy, emit. rewrite Hb at 1 2. cbn.
  by rewrite <- app_assoc.
Qed.

Lemma endGame_ready (v : JsVal) (a : App) :
  ready_for "endGame" a = true → is_Some (ContainerPlugin.endGame v a).
Proof.
  intros H. unfold ContainerPlugin.endGame.
  destruct (trigger_ready "endGame" (js_or v (VStr "game_completed")) a H) as [b ->].
  simpl. eauto.
Qed.

Lemma triggered_app (name : string) (es1 es2 : list Effect) :
  triggered name (es1 ++ es2) = triggered name es1 ++ triggered name es2.
Proof. apply omap_app. Qed.

Lemma triggered_from_listener (name : string) (mid : list Effect) :
  Forall (λ e, from_listener e = true) mid → triggered name mid = [].
Proof.
  induction 1 as [|e es He _ IH]; [done|].
  destruct e; try done; exact IH.
Qed.

Lemma endGame_triggered (v : JsVal) (a a' : App) :
  ContainerPlugin.endGame v a = Some a' →
  triggered "endGame" (log a') =
  triggered "endGame" (log a) ++ [js_or v (VStr "game_completed")].
Proof.
  intros (mid & -> & F & _)%endGame_shape. cbn [log set_destroyed set_learning
    set_subscriptions set_log].
  rewrite triggered_app. f_equal.
  change (ETrigger ?n ?d :: ?t) with ([ETrigger n d] ++ t).
  rewrite !triggered_app, (triggered_from_listener _ _ F). done.
Qed.

Lemma endGame_fails (v : JsVal) (a : App) :
  ContainerPlugin.endGame v a = None → ready_for "endGame" a = false.
Proof.
  intros H. destruct (ready_for "endGame" a) eqn:R; [|done].
  destruct (endGame_ready v a R) as [? ?]. congruence.
Qed.

Lemma dispatch_fails (P : App → Prop) (bad : Listener → bool) :
  (∀ l d a a', P a → run_listener l d a = Some a' → P a') →
  (∀ l d a, P a → bad l = true → run_listener l d a = None) →
  ∀ ls d a, P a → (∃ l, In l ls ∧ bad l = true) → dispatch ls d a = None.
Proof.
  intros Hkeep Hbad ls d. induction ls as [|l ls IH]; intros a HP (l0 & Hin & Hl0).
  - destruct Hin.
  - simpl. destruct (run_listener l d a) as [b|] eqn:E; [|done]. simpl.
    destruct Hin as [->|Hin].
    + by rewrite (Hbad l0 d a HP Hl0) in E.
    + apply IH; [by eapply Hkeep | by exists l0].
Qed.

Lemma trigger_fails (P : App → Prop) (bad : Listener → bool) :
  (∀ l d a a', P a → run_listener l d a = Some a' → P a') →
  (∀ l d a, P a → bad l = true → run_listener l d a = None) →
  (∀ n d subs a, P a → P (set_subscriptions subs (emit (ETrigger n d) a))) →
  ∀ s d a, P a → In s (subscriptions a) → bad (sub_listener s) = true →
           trigger (sub_name s) d a = None.
Proof.
  intros Hkeep Hbad Hframe s d a HP Hin Hs. unfold trigger.
  apply (dispatch_fails P bad Hkeep Hbad); [by apply Hframe|].
  exists (sub_listener s). split; [|done].
  apply in_map_iff. exists s. split; [done|].
  apply filter_In. split; [done|]. unfold subscribed_to. apply String.eqb_refl.
Qed.

(** The same at one payload: a listener that fails on [d] where [P]
    holds makes the whole dispatch of [d] fail. *)
Lemma dispatch_fails_at (P : App → Prop) (bad : Listener → bool) (d : JsVal) :
  (∀ l a a', P a → run_listener l d a = Some a' → P a') →
  (∀ l a, P a → bad l = true → run_listener l d a = None) →
  ∀ ls a, P a → (∃ l, In l ls ∧ bad l = true) → dispatch ls d a = None.
Proof.
  intros Hkeep Hbad ls. induction ls as [|l ls IH]; intros a HP (l0 & Hin & Hl0).
  - destruct Hin.
  - simpl. destruct (run_listener l d a) as [b|] eqn:E; [|done]. simpl.
    destruct Hin as [->|Hin].
    + by rewrite (Hbad l0 a HP Hl0) in E.
    + apply IH; [by eapply Hkeep | by exists l0].
Qed.

Lemma trigger_fails_at (P : App → Prop) (bad : Listener → bool) (d : JsVal) :
  (∀ l a a', P a → run_listener l d a = Some a' → P a') →
  (∀ l a, P a → bad l = true → run_listener l d a = None) →
  (∀ n subs a, P a → P (set_subscriptions subs (emit (ETrigger n d) a))) →
  ∀ s a, P a → In s (subscriptions a) → bad (sub_listener s) = true →
         trigger (sub_name s) d a = None.
Proof.
  intros Hkeep Hbad Hframe s a HP Hin Hs. unfold trigger.
  apply (dispatch_fails_at P bad d Hkeep Hbad); [by apply Hframe|].
  exists (sub_listener s). split; [|done].
  apply in_map_iff. exists s. split; [done|].
  apply filter_In. split; [done|]. unfold subscribed_to. apply String.eqb_refl.
Qed.

(** Without a dispatcher, an event fails as soon as a listener that calls
    the dispatcher is subscribed to it. *)
Lemma trigger_without_learning (s : Subscription) (d : JsVal) (a : App) :
  learning a = None → In s (subscriptions a) → needs_learning (sub_listener s) = true →
  trigger (sub_name s) d a = None.
Proof.
  intros Hl Hin Hneeds.
  apply (trigger_fails (λ x, learning x = None) needs_learning); try done.
  - intros l d0 x x' Hx Hrun.
    destruct (run_listener_step _ _ _ _ Hrun) as (mid & _ & _ & Hiff).
    destruct (learning x') eqn:E; [|done].
    assert (is_Some (learning x)) as [? ?] by (apply Hiff; eauto). congruence.
  - intros l d0 x Hx Hneed. unfold run_listener.
    destruct l; try done; by rewrite Hx.
Qed.

(** *** singlePlayEnd *)




(** *** Order of the calls in endGame and in teardown *)

(** C5.  [endGame(exitType)] triggers 'endGame' on an application that is
    not yet destroyed by the call and runs [destroy()] on the result; the
    log has the event first and the destroy last.  [teardown] destroys the
    visibility watcher (when there is one), then sends 'endGame', then
    destroys the messenger, and leaves the field [null]. *)
Theorem endGame_then_destroy_teardown_order (a : App) :
  (∀ v,
     match ContainerPlugin.endGame v a with
     | Some a' =>
         ∃ a1 mid,
           trigger "endGame" (js_or v (VStr "game_completed")) a = Some a1
           ∧ destroyed a1 = destroyed a
           ∧ log a1 = log a ++ ETrigger "endGame" (js_or v (VStr "game_completed")) :: mid
           ∧ Forall (λ e, from_listener e = true) mid
           ∧ a' = destroy a1
           ∧ log a' = log a1 ++ [EDestroy]
           ∧ destroyed a' = true
     | None => ready_for "endGame" a = false
     end)
  ∧ match ContainerPlugin.teardown a with
    | Some a' =>
        log a' = log a
                 ++ (if pageVisibility a then [EVisibilityDestroy] else [])
                 ++ [ESend "endGame" VUndefined; EMessengerDestroy]
        ∧ pageVisibility a' = false
        ∧ messenger a' = None
        ∧ is_Some (messenger a)
    | None => messenger a = None
    end.
Proof.
  split.
  - intros v. destruct (ContainerPlugin.endGame v a) as [a'|] eqn:He;
      [|by apply endGame_fails in He].
    unfold ContainerPlugin.endGame in He.
    destruct (trigger _ _ a) as [a1|] eqn:Ht; [|done]. injection He as <-.
    destruct (trigger_shape _ _ _ _ Ht) as (mid & Ha1 & F & _).
    exists a1, mid. split_and!; try done; by rewrite Ha1.
  - unfold ContainerPlugin.teardown, messenger_send.
    destruct (pageVisibility a) eqn:Hv; cbn;
      destruct (messenger a) as [m|] eqn:Hm; cbn; try done;
      rewrite ?Hv; split_and!; eauto; by rewrite <- !app_assoc.
Qed.

(** *** The default exit type *)

(** C10.  [exitType || 'game_completed']: the payload of the 'endGame'
    event is never falsy; for a falsy argument (the empty string, [false],
    [0], [null], [undefined], [NaN]) the call is the call with
    'game_completed', and that is the payload of the one event it
    triggers. *)
Theorem endGame_default_exit_type (v : JsVal) (a : App) :
  truthy (js_or v (VStr "game_completed")) = true
  ∧ Forall (λ d, truthy d = false)
      [VStr ""; VBool false; VNum 0; VNull; VUndefined; VNaN]
  ∧ match ContainerPlugin.endGame v a with
    | Some a' => ∃ d, triggered "endGame" (log a') = triggered "endGame" (log a) ++ [d]
                      ∧ truthy d = true
    | None => ready_for "endGame" a = false
    end
  ∧ (truthy v = false →
       ContainerPlugin.endGame v a = ContainerPlugin.endGame (VStr "game_completed") a
       ∧ ∀ a', ContainerPlugin.endGame v a = Some a' →
               triggered "endGame" (log a') =
                 triggered "endGame" (log a) ++ [VStr "game_completed"]).
Proof.
  assert (truthy (js_or v (VStr "game_completed")) = true) as T.
  { unfold js_or. by destruct (truthy v) eqn:E. }
  split_and!; [done | by repeat constructor | |].
  - destruct (ContainerPlugin.endGame v a) as [a'|] eqn:He;
      [|by apply endGame_fails in He].
    eexists. split; [by apply endGame_triggered in He | done].
  - intros Hf. split.
    + unfold ContainerPlugin.endGame, js_or. by rewrite Hf.
    + intros a' He%endGame_triggered. unfold js_or in He. by rewrite Hf in He.
Qed.

Lemma endGame_default_exit_type_witness :
  ContainerPlugin.endGame (VStr "")
    (LearningPlugin.setup false (ContainerPlugin.setup true (new_app ∅)))
  = ContainerPlugin.endGame (VStr "game_completed")
      (LearningPlugin.setup false (ContainerPlugin.setup true (new_app ∅))).
Proof.
  destruct (endGame_default_exit_type (VStr "")
              (LearningPlugin.setup false (ContainerPlugin.setup true (new_app ∅))))
    as (_ & _ & _ & H).
  destruct (H eq_refl) as [E _]. exact E.
Defined.

(** *** The inbound handlers *)

(** A message of the container reaches the handler registered for its
    name. *)
Lemma receive_wired (name : string) (h : Inbound) (d : JsVal) (a : App) (m : Messenger) :
  messenger a = Some m → inbound m = ContainerPlugin.inbound_handlers →
  In (name, h) ContainerPlugin.inbound_handlers →
  ContainerPlugin.receive name d a = ContainerPlugin.run_inbound h d a.
Proof.
  intros Hm Hi Hin. unfold ContainerPlugin.receive. rewrite Hm, Hi.
  unfold ContainerPlugin.inbound_handlers in Hin. simpl in Hin.
  assert (∀ h', ContainerPlugin.run_inbounds [h'] d a
                = ContainerPlugin.run_inbound h' d a) as single.
  { intros h'. simpl. by destruct (ContainerPlugin.run_inbound h' d a). }
  repeat (destruct Hin as [[= <- <-]|Hin]; [exact (single _)|]).
  done.
Qed.

(** C6.  The 'pause' handler sets [paused] to the boolean of the message
    data and [enabled] to its negation, and nothing else: [true] gives
    paused and not enabled, [false] gives not paused and enabled.  Once
    [preload] has registered the handlers, this is what a 'pause' message
    runs. *)
Theorem onPause_paused_enabled (data : JsVal) (a : App) :
  (∃ a', ContainerPlugin.onPause data a = Some a'
         ∧ paused a' = js_bool data
         ∧ enabled a' = negb (paused a')
         ∧ a' = set_enabled (negb (js_bool data)) (set_paused (js_bool data) a))
  ∧ ContainerPlugin.onPause (VBool true) a = Some (set_enabled false (set_paused true a))
  ∧ ContainerPlugin.onPause (VBool false) a = Some (set_enabled true (set_paused false a))
  ∧ (∀ m, messenger a = Some m → inbound m = ContainerPlugin.inbound_handlers →
          ContainerPlugin.receive "pause" data a = ContainerPlugin.onPause data a).
Proof.
  split_and!; try done.
  - eexists. split_and!; done.
  - intros m Hm Hi. apply (receive_wired _ Pause _ _ m Hm Hi). cbn. tauto.
Qed.

(** A number below [2^53] is written with its decimal digits. *)
Lemma js_to_string_integer (n : Z) :
  (Z.abs n < 2 ^ 53)%Z → js_to_string (VNum n) = pretty n.
Proof.
  intros Hn. cbn [js_to_string]. unfold number_to_string, nearest_double.
  destruct n as [|p|p]; [done | |].
  - assert (Z.log2 (Z.pos p) < 53)%Z as Hlog by (apply Z.log2_lt_pow2; lia).
    destruct (Z.leb_spec (Z.log2 (Z.pos p) - 52) 0) as [_|?]; [|lia].
    unfold positive_to_string.
    by destruct (Z.ltb_spec (Z.pos p) (2 ^ 53)) as [_|?]; [|lia].
  - change (- Z.neg p)%Z with (Z.pos p).
    assert (Z.log2 (Z.pos p) < 53)%Z as Hlog by (apply Z.log2_lt_pow2; lia).
    destruct (Z.leb_spec (Z.log2 (Z.pos p) - 52) 0) as [_|?]; [|lia].
    unfold positive_to_string.
    by destruct (Z.ltb_spec (Z.pos p) (2 ^ 53)) as [_|?]; [|lia].
Qed.

(** Larger numbers: the shortest digits that read back as the same
    Number, in exponent notation from [1e21] on. *)
Lemma js_to_string_large :
  js_to_string (VNum (2 ^ 53)) = "9007199254740992"
  ∧ js_to_string (VNum (2 ^ 53 + 1)) = "9007199254740992"
  ∧ js_to_string (VNum (2 ^ 60)) = "1152921504606847000"
  ∧ js_to_string (VNum (10 ^ 21 - 1)) = "1e+21"
  ∧ js_to_string (VNum (10 ^ 21)) = "1e+21"
  ∧ js_to_string (VNum (- 10 ^ 21)) = "-1e+21"
  ∧ js_to_string (VNum (10 ^ 23)) = "1e+23"
  ∧ js_to_string (VNum 123456789012345678901234567890) = "1.2345678901234568e+29"
  ∧ js_to_string (VNum (2 ^ 1024)) = "Infinity".
Proof. vm_compute. done. Qed.

(** C7.  With a caption text element, the 'captionsStyles' handler sets its
    class to the six style fields of the payload, each after its prefix, in
    the order size, bg, color, edge, font, align, one space between them,
    and changes nothing else; each field is written as ["prefix" + value]
    writes it (a string as it is, a number as Number::toString gives it).
    Without a text element the handler changes nothing, whatever the
    payload. *)
Theorem onCaptionsStyles_class (a : App) (l : positive) (styles : gmap string JsVal)
    (size background color edge font align : JsVal)
    (Hobj : heap a !! l = Some styles)
    (Hsize : styles !! "size" = Some size)
    (Hbackground : styles !! "background" = Some background)
    (Hcolor : styles !! "color" = Some color)
    (Hedge : styles !! "edge" = Some edge)
    (Hfont : styles !! "font" = Some font)
    (Halign : styles !! "align" = Some align) :
  match text_element a with
  | Some tf =>
      ∃ c, captions a = Some c ∧ textField c = Some tf
        ∧ ContainerPlugin.onCaptionsStyles (VRef l) a =
          Some (set_captions
                  (Some {| captions_muteAll := captions_muteAll c;
                           textField := Some
                             {| nodeName := nodeName tf;
                                className :=
                                  ("size-" ++ js_to_string size ++
                                   " bg-" ++ js_to_string background ++
                                   " color-" ++ js_to_string color ++
                                   " edge-" ++ js_to_string edge ++
                                   " font-" ++ js_to_string font ++
                                   " align-" ++ js_to_string align)%string |} |}) a)
  | None => ∀ data, ContainerPlugin.onCaptionsStyles data a = Some a
  end.
Proof.
  unfold text_element, ContainerPlugin.onCaptionsStyles.
  destruct (captions a) as [c|] eqn:Hc; cbn; [|done].
  destruct (textField c) as [tf|] eqn:Htf; cbn; [|done].
  destruct (truthy (nodeName tf)) eqn:Hn; [|done].
  exists c. split_and!; [done..|].
  rewrite Hobj. cbn. rewrite Hsize, Hbackground, Hcolor, Hedge, Hfont, Halign.
  reflexivity.
Qed.

Lemma onPause_paused_enabled_witness :
  ContainerPlugin.receive "pause" (VBool true)
    (set_messenger
       (Some {| supported := true; inbound := ContainerPlugin.inbound_handlers |})
       (new_app ∅))
  = ContainerPlugin.onPause (VBool true)
      (set_messenger
         (Some {| supported := true; inbound := ContainerPlugin.inbound_handlers |})
         (new_app ∅)).
Proof.
  destruct (onPause_paused_enabled (VBool true)
              (set_messenger
                 (Some {| supported := true;
                          inbound := ContainerPlugin.inbound_handlers |})
                 (new_app ∅))) as (_ & _ & _ & H).
  exact (H _ eq_refl eq_refl).
Defined.

Lemma onCaptionsStyles_class_witness :
  ContainerPlugin.onCaptionsStyles (VRef 1) captioned_app =
  Some (set_captions
          (Some {| captions_muteAll := false;
                   textField := Some
                     {| nodeName := VStr "DIV";
                        className :=
                          "size-lg bg-black color-white edge-none font-arial align-left"
                     |} |}) captioned_app).
Proof.
  destruct (onCaptionsStyles_class captioned_app 1 sample_styles
              (VStr "lg") (VStr "black") (VStr "white")
              (VStr "none") (VStr "arial") (VStr "left")
              eq_refl eq_refl eq_refl eq_refl eq_refl eq_refl eq_refl)
    as (c & Hc & _ & H).
  injection Hc as <-. exact H.
Defined.

(** C3.  The 'playOptions' handler merges the payload into the object that
    [playOptions] refers to, in place: the field keeps its reference, the
    object behind it gets every key of the payload with the payload's
    value and keeps its other keys, and no other object changes.  A falsy
    payload merges nothing.  [{b: 2}] into [{a: 1}] gives [{a: 1, b: 2}],
    [{a: 3}] into [{a: 1}] gives [{a: 3}]. *)
Theorem onPlayOptions_merge (a : App) (l : positive) (existing : gmap string JsVal)
    (data : JsVal)
    (Hfield : playOptions a = VRef l)
    (Hobj : heap a !! l = Some existing) :
  (truthy data = false → ContainerPlugin.onPlayOptions data a = Some a)
  ∧ (∀ ls payload, data = VRef ls → heap a !! ls = Some payload →
       ∃ a' merged,
         ContainerPlugin.onPlayOptions data a = Some a'
         ∧ a' = set_heap (heap a') a
         ∧ playOptions a' = VRef l
         ∧ heap a' !! l = Some merged
         ∧ (∀ l', l' ≠ l → heap a' !! l' = heap a !! l')
         ∧ (∀ k v, payload !! k = Some v → merged !! k = Some v)
         ∧ (∀ k, payload !! k = None → merged !! k = existing !! k)
         ∧ (existing = {[ "a" := VNum 1 ]} → payload = {[ "b" := VNum 2 ]} →
              merged = <[ "b" := VNum 2 ]> {[ "a" := VNum 1 ]})
         ∧ (existing = {[ "a" := VNum 1 ]} → payload = {[ "a" := VNum 3 ]} →
              merged = {[ "a" := VNum 3 ]})).
Proof.
  unfold ContainerPlugin.onPlayOptions, ContainerPlugin.merge_source, Object_merge.
  split.
  - intros ->. cbn. rewrite Hfield, Hobj. cbn.
    rewrite (left_id_L ∅ (∪)), insert_id by done. by rewrite set_heap_same.
  - intros ls payload -> Hp. cbn. rewrite Hp, Hfield. cbn. rewrite Hobj. cbn.
    eexists _, (payload ∪ existing). split_and!; try done.
    + cbn. apply lookup_insert_eq.
    + intros l' Hne. cbn. by apply lookup_insert_ne.
    + intros k v Hk. by apply lookup_union_Some_l.
    + intros k Hk. by apply lookup_union_r.
    + intros -> ->. by rewrite insert_union_singleton_l.
    + intros -> ->. apply map_eq. intros k.
      destruct (decide (k = "a")) as [->|Hne]; [done|].
      rewrite lookup_union_r; by rewrite ?lookup_singleton_ne.
Qed.

Lemma onPlayOptions_merge_witness :
  (∃ a', ContainerPlugin.onPlayOptions (VRef 2) play_app = Some a'
         ∧ heap a' !! 1%positive = Some (<[ "b" := VNum 2 ]> {[ "a" := VNum 1 ]}))
  ∧ (∃ a', ContainerPlugin.onPlayOptions (VRef 3) play_app = Some a'
           ∧ heap a' !! 1%positive = Some {[ "a" := VNum 3 ]})
  ∧ ContainerPlugin.onPlayOptions VNull play_app = Some play_app.
Proof.
  split_and!.
  - destruct (onPlayOptions_merge play_app 1 {[ "a" := VNum 1 ]} (VRef 2)
                eq_refl eq_refl) as [_ H].
    destruct (H 2%positive {[ "b" := VNum 2 ]} eq_refl eq_refl)
      as (a' & merged & Ha & _ & _ & Hl & _ & _ & _ & Hm & _).
    exists a'. split; [exact Ha|]. rewrite Hl. f_equal. by apply Hm.
  - destruct (onPlayOptions_merge play_app 1 {[ "a" := VNum 1 ]} (VRef 3)
                eq_refl eq_refl) as [_ H].
    destruct (H 3%positive {[ "a" := VNum 3 ]} eq_refl eq_refl)
      as (a' & merged & Ha & _ & _ & Hl & _ & _ & _ & _ & Hm).
    exists a'. split; [exact Ha|]. rewrite Hl. f_equal. by apply Hm.
  - destruct (onPlayOptions_merge play_app 1 {[ "a" := VNum 1 ]} VNull
                eq_refl eq_refl) as [H _].
    by apply H.
Defined.

(** *** preload *)

Lemma alloc_fresh (o : gmap string JsVal) (h : gmap positive (gmap string JsVal)) :
  h !! (alloc o h).1 = None ∧ (alloc o h).2 !! (alloc o h).1 = Some o
  ∧ ∀ l x, h !! l = Some x → (alloc o h).2 !! l = Some x.
Proof.
  unfold alloc. cbn.
  assert (h !! fresh (dom h) = None) as Hf by (apply not_elem_of_dom, is_fresh).
  split_and!; [done | apply lookup_insert_eq |].
  intros l x Hl. rewrite lookup_insert_ne; [done|]. intros <-. congruence.
Qed.

Lemma preload_unfold (a : App) (m : Messenger) :
  messenger a = Some m →
  ContainerPlugin.preload a =
  if supported m then
    let b := set_messenger
               (Some {| supported := supported m;
                        inbound := inbound m ++ ContainerPlugin.inbound_handlers |})
               (copy_options a) in
    Some (set_pageVisibility true
            (set_autoPause false
               (emit (ESend "features" (VRef (alloc (ContainerPlugin.features b) (heap b)).1))
                  (set_heap (alloc (ContainerPlugin.features b) (heap b)).2 b))))
  else Some (copy_options a).
Proof.
  intros Hm. destruct a; cbn in Hm; subst.
  unfold ContainerPlugin.preload, copy_options, messenger_on, messenger_send,
    option_value; cbn [options set_singlePlay].
  destruct (truthy _); cbn; destruct (supported m); reflexivity.
Qed.

Lemma copy_options_frame (a : App) :
  copy_options a =
  set_heap (heap (copy_options a))
    (set_playOptions (playOptions (copy_options a))
       (set_singlePlay (js_bool (option_value "singlePlay" a)) a)).
Proof.
  unfold copy_options. cbn.
  change (option_value "playOptions" (set_singlePlay ?x a))
    with (option_value "playOptions" a).
  destruct (truthy (option_value "playOptions" a)); by destruct a.
Qed.

(** The value of [playOptions] after the copy: the option when it is
    truthy, a new empty object otherwise. *)
Lemma copy_options_playOptions (a : App) :
  truthy (playOptions (copy_options a)) = true
  ∧ (∀ l x, heap a !! l = Some x → heap (copy_options a) !! l = Some x)
  ∧ if truthy (option_value "playOptions" a)
    then playOptions (copy_options a) = option_value "playOptions" a
    else ∃ l, playOptions (copy_options a) = VRef l
              ∧ heap (copy_options a) !! l = Some ∅
              ∧ heap a !! l = None.
Proof.
  unfold copy_options.
  change (option_value "playOptions" (set_singlePlay ?x a))
    with (option_value "playOptions" a).
  destruct (truthy (option_value "playOptions" a)) eqn:E.
  - done.
  - destruct (alloc_fresh ∅ (heap a)) as (Hf & Hn & Hk).
    split_and!; [done | exact Hk |]. by exists (alloc ∅ (heap a)).1.
Qed.

(** What [preload] leaves of the copy: the field, and every object of the
    store. *)
Lemma preload_keeps_copy (a : App) (m : Messenger) :
  messenger a = Some m →
  ∃ a', ContainerPlugin.preload a = Some a'
        ∧ playOptions a' = playOptions (copy_options a)
        ∧ ∀ l x, heap (copy_options a) !! l = Some x → heap a' !! l = Some x.
Proof.
  intros Hm. rewrite (preload_unfold a m Hm). destruct (supported m).
  - eexists. split; [reflexivity|]. split; [done|].
    cbn -[alloc ContainerPlugin.features].
    match goal with |- context [alloc ?f ?h] =>
      destruct (alloc_fresh f h) as (_ & _ & Hk') end.
    exact Hk'.
  - by exists (copy_options a).
Qed.

(** The 'playOptions' handler completes when it has an object to merge
    into and a payload that is an object or falsy. *)
Lemma onPlayOptions_defined (a : App) (data : JsVal) :
  is_object (heap a) (playOptions a) →
  truthy data = false ∨ is_object (heap a) data →
  is_Some (ContainerPlugin.onPlayOptions data a).
Proof.
  intros (l & o & Hp & Ho) Hd.
  unfold ContainerPlugin.onPlayOptions, ContainerPlugin.merge_source, Object_merge.
  rewrite Hp. destruct Hd as [->|(ls & src & -> & Hs)]; cbn.
  - rewrite Ho. cbn. eauto.
  - rewrite Hs. cbn. rewrite Ho. cbn. eauto.
Qed.

(** C9 (as the code has it).  After [preload], [playOptions] is never
    [null], [undefined] or any other falsy value.  A falsy option, [null] (the default that
    [setup] registers) in particular, is replaced by a new empty object; a
    truthy option is kept as it is.  So with an option of the documented
    type, an object or nothing, [playOptions] refers to an object, and the
    'playOptions' handler finds an object to merge into, whether the
    payload is an object or falsy. *)
Theorem preload_playOptions_object (a : App) (m : Messenger)
    (Hm : messenger a = Some m) :
  ∃ a',
    ContainerPlugin.preload a = Some a'
    ∧ truthy (playOptions a') = true
    ∧ (if truthy (option_value "playOptions" a)
       then playOptions a' = option_value "playOptions" a
       else ∃ l, playOptions a' = VRef l
                 ∧ heap a' !! l = Some ∅
                 ∧ heap a !! l = None)
    ∧ (truthy (option_value "playOptions" a) = false
       ∨ is_object (heap a) (option_value "playOptions" a) →
         is_object (heap a') (playOptions a')
         ∧ ∀ data, truthy data = false ∨ is_object (heap a') data →
                   is_Some (ContainerPlugin.onPlayOptions data a'))
    ∧ (∀ container a0, options a0 !! "playOptions" = None →
         option_value "playOptions" (ContainerPlugin.setup container a0) = VNull).
Proof.
  destruct (preload_keeps_copy a m Hm) as (a' & Hpre & Hp & Hkeep).
  destruct (copy_options_playOptions a) as (Ht & Hk & Hcase).
  exists a'. split; [exact Hpre|]. split; [by rewrite Hp|].
  assert (if truthy (option_value "playOptions" a)
          then playOptions a' = option_value "playOptions" a
          else ∃ l, playOptions a' = VRef l ∧ heap a' !! l = Some ∅
                    ∧ heap a !! l = None) as Hcase'.
  { destruct (truthy (option_value "playOptions" a)); [by rewrite Hp|].
    destruct Hcase as (l & Hl & Ho & Hn). exists l. rewrite Hp.
    split_and!; [done | by apply Hkeep | done]. }
  split; [exact Hcase'|]. split.
  - intros Htyped.
    assert (is_object (heap a') (playOptions a')) as Hobj.
    { destruct (truthy (option_value "playOptions" a)) eqn:E.
      - destruct Htyped as [?|(l & o & Hv & Ho)]; [done|].
        exists l, o. split; [congruence|]. by apply Hkeep, Hk.
      - destruct Hcase' as (l & Hl & Ho & _). by exists l, ∅. }
    split; [exact Hobj|]. intros data. by apply onPlayOptions_defined.
  - intros container a0 Hn. unfold ContainerPlugin.setup, option_value, options_add.
    destruct (options a0 !! "singlePlay") eqn:E1; cbn; rewrite ?E1, ?Hn; cbn;
      rewrite ?lookup_insert_ne, ?Hn by done; cbn;
      by rewrite lookup_insert_eq.
Qed.

Lemma preload_playOptions_object_witness :
  (∃ a', ContainerPlugin.preload contained_app = Some a'
         ∧ is_object (heap a') (playOptions a'))
  ∧ (∃ a', ContainerPlugin.preload optioned_app = Some a'
           ∧ playOptions a' = VRef 1
           ∧ is_object (heap a') (playOptions a')).
Proof.
  split.
  - destruct (preload_playOptions_object contained_app
                {| supported := true; inbound := [] |} eq_refl)
      as (a' & Hpre & _ & _ & Hobj & _).
    exists a'. split; [exact Hpre|]. apply Hobj. left. vm_compute. reflexivity.
  - assert (option_value "playOptions" optioned_app = VRef 1) as E
      by (vm_compute; reflexivity).
    destruct (preload_playOptions_object optioned_app
                {| supported := true; inbound := [] |} eq_refl)
      as (a' & Hpre & _ & Hcase & Hobj & _).
    rewrite E in Hcase, Hobj. cbn [truthy] in Hcase.
    exists a'. split_and!; [exact Hpre | exact Hcase |].
    apply Hobj. right. exists 1%positive, {[ "a" := VNum 1 ]}.
    split; [reflexivity | vm_compute; reflexivity].
Defined.

(** C9, as stated, fails where the option is truthy and not an object:
    [this.options.playOptions || {}] keeps the string, and [playOptions]
    is then not an object. *)
Lemma preload_keeps_truthy_option :
  ∃ a', ContainerPlugin.preload labelled_app = Some a'
        ∧ playOptions a' = VStr "easy"
        ∧ ¬ is_object (heap a') (playOptions a').
Proof.
  eexists. split; [vm_compute; reflexivity|].
  split; [reflexivity|].
  intros (l & o & Hl & _). discriminate Hl.
Qed.

(** C2 (as the code has it).  With a messenger that is not supported,
    [preload] only copies the two options: it registers no inbound handler,
    sends nothing (no 'features'), creates no visibility watcher, so that
    no 'focus' is sent on show or hide, and leaves [autoPause] as it is.
    The listeners that [setup] subscribes do not look at [supported]: the
    ones for 'learningEvent', 'analyticEvent' and 'loaded' call
    [messenger.send] all the same. *)
Theorem preload_unsupported_messenger (a : App) (m : Messenger)
    (Hm : messenger a = Some m)
    (Hunsupported : supported m = false) :
  ∃ a',
    ContainerPlugin.preload a = Some a'
    ∧ a' = set_heap (heap a')
             (set_playOptions (playOptions a')
                (set_singlePlay (js_bool (option_value "singlePlay" a)) a))
    ∧ messenger a' = Some m
    ∧ log a' = log a
    ∧ pageVisibility a' = pageVisibility a
    ∧ autoPause a' = autoPause a
    ∧ subscriptions a' = subscriptions a
    ∧ (pageVisibility a = false →
         ContainerPlugin.onShow a' = a' ∧ ContainerPlugin.onHide a' = a')
    ∧ (inbound m = [] → ∀ name data, ContainerPlugin.receive name data a' = Some a')
    ∧ (∀ data, run_listener OnLearningEvent data a'
               = Some (emit (ESend "learningEvent" data) a'))
    ∧ (∀ data, run_listener OnAnalyticEvent data a'
               = Some (emit (ESend "analyticEvent" data) a'))
    ∧ (∀ data, run_listener OnLoaded data a'
               = Some (emit (ESend "loadDone" VUndefined) a'))
    ∧ (∀ container a0,
         subscriptions (ContainerPlugin.setup container a0) =
         subscriptions a0 ++
           [ {| sub_name := "learningEvent"; sub_once := false;
                sub_listener := OnLearningEvent |};
             {| sub_name := "analyticEvent"; sub_once := false;
                sub_listener := OnAnalyticEvent |};
             {| sub_name := "loaded"; sub_once := true;
                sub_listener := OnLoaded |} ]).
Proof.
  exists (copy_options a).
  rewrite (preload_unfold a m Hm), Hunsupported.
  pose proof (copy_options_frame a) as Hf.
  assert (messenger (copy_options a) = Some m) as Hm' by (by rewrite Hf).
  assert (pageVisibility (copy_options a) = pageVisibility a) as Hv by (by rewrite Hf).
  split_and!; try done; try (by rewrite Hf).
  - intros Hno. unfold ContainerPlugin.onShow, ContainerPlugin.onHide.
    by rewrite Hv, Hno.
  - intros Hi name data. unfold ContainerPlugin.receive. by rewrite Hm', Hi.
  - intros data. cbn. unfold messenger_send. by rewrite Hm'.
  - intros data. cbn. unfold messenger_send. by rewrite Hm'.
  - intros data. cbn. unfold messenger_send. by rewrite Hm'.
  - intros container a0. unfold ContainerPlugin.setup, options_add.
    destruct (options a0 !! "singlePlay"); cbn;
      destruct (_ !! "playOptions"); cbn; by rewrite <- !app_assoc.
Qed.

Lemma preload_unsupported_messenger_witness :
  ∃ a', ContainerPlugin.preload standalone_app = Some a'
        ∧ log a' = [EConnect]
        ∧ messenger a' = Some {| supported := false; inbound := [] |}.
Proof.
  destruct (preload_unsupported_messenger standalone_app
              {| supported := false; inbound := [] |} eq_refl eq_refl)
    as (a' & Hpre & _ & Hmes & Hlog & _).
  exists a'. split_and!; [exact Hpre | | exact Hmes].
  rewrite Hlog. reflexivity.
Defined.

(** C2, as stated, fails: in an application without a container
    ([supported] is false) the first 'loaded' event still makes the plugin
    call [messenger.send('loadDone')], and a 'learningEvent' is passed to
    [messenger.send] as well. *)
Lemma unsupported_still_sends :
  ∃ a1 a2 a3 m,
    ContainerPlugin.preload standalone_app = Some a1
    ∧ messenger a1 = Some m ∧ supported m = false
    ∧ trigger "loaded" VUndefined a1 = Some a2
    ∧ sent "loadDone" (log a2) = [VUndefined]
    ∧ trigger "learningEvent" (VStr "event") a2 = Some a3
    ∧ log a3 = [ EConnect;
                 ETrigger "loaded" VUndefined; ESend "loadDone" VUndefined;
                 ETrigger "learningEvent" (VStr "event");
                 ESend "learningEvent" (VStr "event") ].
Proof.
  eexists _, _, _, _.
  split; [vm_compute; reflexivity|].
  split; [vm_compute; reflexivity|].
  split; [reflexivity|].
  split; [vm_compute; reflexivity|].
  split; [vm_compute; reflexivity|].
  split; vm_compute; reflexivity.
Qed.

(** *** The unload hooks *)

Lemma fire_all_cleared (hooks : list ContainerPlugin.UnloadHook) (a : App) :
  window a = {| onunload := None; onbeforeunload := None |} →
  ContainerPlugin.fire_all hooks a = Some a.
Proof.
  intros Hw. induction hooks as [|hk hooks IH]; [done|].
  simpl. unfold ContainerPlugin.fire. rewrite Hw. destruct hk; exact IH.
Qed.

(** C8.  [setup] installs the unload handler on both hooks.  Whichever
    hook the browser calls first runs the handler, which clears both hooks
    and then calls [endGame('left_site')]; every later call of a hook finds
    nothing to run.  So a sequence of unload callbacks, however long,
    triggers 'endGame' with 'left_site' once. *)
Theorem unload_ends_game_once (a : App) (hk : ContainerPlugin.UnloadHook)
    (hooks : list ContainerPlugin.UnloadHook)
    (Hinstalled : window a = {| onunload := Some OnWindowUnload;
                                onbeforeunload := Some OnWindowUnload |}) :
  ContainerPlugin.fire hk a = ContainerPlugin.onWindowUnload a
  ∧ ContainerPlugin.onWindowUnload a =
      ContainerPlugin.endGame (VStr "left_site")
        (set_window {| onunload := None; onbeforeunload := None |} a)
  ∧ ContainerPlugin.fire_all (hk :: hooks) a = ContainerPlugin.fire hk a
  ∧ match ContainerPlugin.fire_all (hk :: hooks) a with
    | Some a' =>
        window a' = {| onunload := None; onbeforeunload := None |}
        ∧ triggered "endGame" (log a') = triggered "endGame" (log a) ++ [VStr "left_site"]
        ∧ ∀ later, ContainerPlugin.fire_all later a' = Some a'
    | None => ready_for "endGame" a = false
    end
  ∧ ∀ container a0,
      window (ContainerPlugin.setup container a0) =
      {| onunload := Some OnWindowUnload; onbeforeunload := Some OnWindowUnload |}.
Proof.
  assert (ContainerPlugin.fire hk a = ContainerPlugin.onWindowUnload a) as Hfire.
  { unfold ContainerPlugin.fire. rewrite Hinstalled. by destruct hk. }
  assert (∀ a', ContainerPlugin.onWindowUnload a = Some a' →
                window a' = {| onunload := None; onbeforeunload := None |}) as Hclr.
  { intros a' (mid & -> & _)%endGame_shape. done. }
  assert (ContainerPlugin.fire_all (hk :: hooks) a = ContainerPlugin.fire hk a) as Hall.
  { simpl. rewrite Hfire.
    destruct (ContainerPlugin.onWindowUnload a) as [a'|] eqn:E; [|done].
    simpl. by apply fire_all_cleared, Hclr. }
  split_and!; try done.
  rewrite Hall, Hfire.
  destruct (ContainerPlugin.onWindowUnload a) as [a'|] eqn:E.
  - split_and!.
    + by apply Hclr.
    + by apply endGame_triggered in E.
    + intros later. by apply fire_all_cleared, Hclr.
  - by apply endGame_fails in E.
Qed.

Lemma unload_ends_game_once_witness :
  ContainerPlugin.fire_all [ContainerPlugin.BeforeUnload; ContainerPlugin.Unload]
    contained_app
  = ContainerPlugin.endGame (VStr "left_site")
      (set_window {| onunload := None; onbeforeunload := None |} contained_app).
Proof.
  destruct (unload_ends_game_once contained_app ContainerPlugin.BeforeUnload
              [ContainerPlugin.Unload] eq_refl) as (H1 & H2 & H3 & _).
  rewrite H3, H1. exact H2.
Defined.

(** *** Single-shot subscriptions *)

Lemma filter_filter_comm {A : Type} (f g : A → bool) (l : list A) :
  List.filter f (List.filter g l) = List.filter g (List.filter f l).
Proof.
  induction l as [|x l IH]; [done|]. simpl.
  destruct (f x) eqn:Ef, (g x) eqn:Eg; simpl; rewrite ?Ef, ?Eg, IH; done.
Qed.

Lemma dispatch_app (l1 l2 : list Listener) (d : JsVal) (a : App) :
  dispatch (l1 ++ l2) d a = dispatch l1 d a ≫= dispatch l2 d.
Proof.
  revert a. induction l1 as [|l l1 IH]; intros a; simpl; [done|].
  destruct (run_listener l d a); simpl; [apply IH | done].
Qed.

(** The listeners called for an event, when [l] is not subscribed. *)
Lemma called_spent (l : Listener) (name : string) (subs : list Subscription) :
  List.filter (has_listener l) subs = [] →
  ¬ In l (sub_listener <$> List.filter (subscribed_to name) subs).
Proof.
  intros Hs [s [<- [Hin _]%filter_In]]%in_map_iff.
  assert (In s (List.filter (has_listener (sub_listener s)) subs)) as Hc.
  { apply filter_In. split; [done|]. by apply bool_decide_eq_true. }
  by rewrite Hs in Hc.
Qed.

(** The listeners called for an event, when [l] is subscribed once. *)
Lemma called_armed (l : Listener) (name : string) (s0 : Subscription)
    (subs : list Subscription) :
  List.filter (has_listener l) subs = [s0] →
  ∃ pre post,
    sub_listener <$> List.filter (subscribed_to name) subs =
      pre ++ (if subscribed_to name s0 then [l] else []) ++ post
    ∧ ¬ In l pre ∧ ¬ In l post.
Proof.
  induction subs as [|x subs IH]; [done|]. cbn [List.filter].
  destruct (has_listener l x) eqn:Hx.
  - intros [= -> Hrest]. exists [], (sub_listener <$> List.filter (subscribed_to name) subs).
    split_and!; [| tauto | by apply called_spent].
    apply bool_decide_eq_true in Hx.
    destruct (subscribed_to name s0); simpl; by rewrite ?Hx.
  - intros Hrest. destruct (IH Hrest) as (pre & post & Heq & Hpre & Hpost).
    apply bool_decide_eq_false in Hx.
    destruct (subscribed_to name x).
    + exists (sub_listener x :: pre), post. rewrite fmap_cons, Heq.
      split_and!; [done | | done]. intros [?|?]; [congruence | done].
    + by exists pre, post.
Qed.

Lemma trigger_subscriptions (name : string) (d : JsVal) (a a' : App) :
  trigger name d a = Some a' →
  subscriptions a' = List.filter (λ s, negb (single_shot_for name s)) (subscriptions a).
Proof. intros (mid & -> & _)%trigger_shape. done. Qed.

(** An event leaves an unsubscribed listener unsubscribed and does not
    call it. *)
Lemma trigger_spent (l : Listener) (name : string) (d : JsVal) (a a' : App) :
  spent l a → trigger name d a = Some a' →
  spent l a'
  ∧ ∃ ls, ¬ In l ls
          ∧ dispatch ls d
              (set_subscriptions
                 (List.filter (λ s, negb (single_shot_for name s)) (subscriptions a))
                 (emit (ETrigger name d) a)) = Some a'.
Proof.
  unfold spent. intros Hs Ht. split.
  - rewrite (trigger_subscriptions _ _ _ _ Ht), filter_filter_comm, Hs. done.
  - eexists. split; [|exact Ht]. by apply called_spent.
Qed.

(** An event under another name leaves a single-shot subscription in
    place and does not call its listener; the event it is subscribed to
    calls the listener once and drops the subscription. *)
Lemma trigger_armed (subscribed : string) (l : Listener) (name : string) (d : JsVal)
    (a a' : App) :
  armed subscribed l a → trigger name d a = Some a' →
  if String.eqb subscribed name then
    spent l a'
    ∧ ∃ pre post b1 b2,
        ¬ In l pre ∧ ¬ In l post
        ∧ dispatch pre d
            (set_subscriptions
               (List.filter (λ s, negb (single_shot_for name s)) (subscriptions a))
               (emit (ETrigger name d) a)) = Some b1
        ∧ run_listener l d b1 = Some b2
        ∧ dispatch post d b2 = Some a'
  else
    armed subscribed l a'
    ∧ ∃ ls, ¬ In l ls
            ∧ dispatch ls d
                (set_subscriptions
                   (List.filter (λ s, negb (single_shot_for name s)) (subscriptions a))
                   (emit (ETrigger name d) a)) = Some a'.
Proof.
  unfold armed, spent. intros Ha Ht.
  pose proof (trigger_subscriptions _ _ _ _ Ht) as Hsub.
  destruct (called_armed l name _ _ Ha) as (pre & post & Hcalled & Hpre & Hpost).
  unfold trigger in Ht. rewrite Hcalled in Ht.
  unfold subscribed_to in Hcalled, Ht. simpl in Hcalled, Ht.
  rewrite Hsub, filter_filter_comm, Ha. simpl.
  unfold single_shot_for, subscribed_to. simpl.
  destruct (String.eqb subscribed name) eqn:E; simpl.
  - split; [done|].
    rewrite dispatch_app in Ht.
    destruct (dispatch pre d _) as [b1|] eqn:E1; [|done]. simpl in Ht.
    destruct (run_listener l d b1) as [b2|] eqn:E2; [|done]. simpl in Ht.
    by exists pre, post, b1, b2.
  - split; [done|]. exists (pre ++ post). split; [|exact Ht].
    rewrite in_app_iff. tauto.
Qed.

Lemma sent_app (name : string) (es1 es2 : list Effect) :
  sent name (es1 ++ es2) = sent name es1 ++ sent name es2.
Proof. apply omap_app. Qed.

Lemma added_maps_app (es1 es2 : list Effect) :
  added_maps (es1 ++ es2) = added_maps es1 ++ added_maps es2.
Proof. apply omap_app. Qed.

Lemma trigger_heap (name : string) (d : JsVal) (a a' : App) :
  trigger name d a = Some a' → heap a' = heap a.
Proof. intros (mid & -> & _)%trigger_shape. done. Qed.

Lemma dispatch_heap (ls : list Listener) (d : JsVal) (a a' : App) :
  dispatch ls d a = Some a' → heap a' = heap a.
Proof. intros (mid & -> & _)%dispatch_step. done. Qed.

(** Only the 'loaded' listener sends 'loadDone'. *)
Lemma run_listener_loadDone (l : Listener) (d : JsVal) (a a' : App) :
  run_listener l d a = Some a' →
  sent "loadDone" (log a') =
  sent "loadDone" (log a) ++ (if decide (l = OnLoaded) then [VUndefined] else []).
Proof.
  unfold run_listener, messenger_send. intros H.
  destruct l; simplify_option_eq;
    repeat match goal with
           | H : context [match ?x with _ => _ end] |- _ =>
               destruct x eqn:?; simplify_option_eq
           end;
    cbn [log emit set_log set_learning]; rewrite ?sent_app, ?app_nil_r; done.
Qed.

Lemma dispatch_loadDone (ls : list Listener) (d : JsVal) (a a' : App) :
  ¬ In OnLoaded ls → dispatch ls d a = Some a' →
  sent "loadDone" (log a') = sent "loadDone" (log a).
Proof.
  revert a. induction ls as [|l ls IH]; intros a Hn H; simpl in H.
  - by injection H as <-.
  - destruct (run_listener l d a) as [b|] eqn:Hl; [|done]. simpl in H.
    rewrite (IH b), (run_listener_loadDone _ _ _ _ Hl); [| |done].
    + destruct (decide (l = OnLoaded)) as [->|]; [|by rewrite app_nil_r].
      exfalso. apply Hn. by left.
    + intros Hin. apply Hn. by right.
Qed.

(** Only the 'configLoaded' listener touches the dispatcher's spec and
    dictionaries. *)
Lemma run_listener_untouched (l : Listener) (d : JsVal) (a a' : App) :
  l ≠ OnConfigLoaded → run_listener l d a = Some a' → untouched a a'.
Proof.
  unfold run_listener, messenger_send, untouched. intros Hl H.
  destruct l; try done; simplify_option_eq;
    repeat match goal with
           | H : context [match ?x with _ => _ end] |- _ =>
               destruct x eqn:?; simplify_option_eq
           end;
    cbn [log learning emit set_log set_learning];
    rewrite ?added_maps_app, ?app_nil_r; done.
Qed.

Lemma untouched_trans (a b c : App) : untouched a b → untouched b c → untouched a c.
Proof. unfold untouched. intros [-> ->] [-> ->]. done. Qed.

Lemma dispatch_untouched (ls : list Listener) (d : JsVal) (a a' : App) :
  ¬ In OnConfigLoaded ls → dispatch ls d a = Some a' → untouched a a'.
Proof.
  revert a. induction ls as [|l ls IH]; intros a Hn H; simpl in H.
  - by injection H as <-.
  - destruct (run_listener l d a) as [b|] eqn:Hl; [|done]. simpl in H.
    apply (untouched_trans a b a').
    + apply (run_listener_untouched l d); [|done]. intros ->. apply Hn. by left.
    + apply IH; [|done]. intros Hin. apply Hn. by right.
Qed.

Lemma run_listener_installs (d : JsVal) (a a' : App) :
  run_listener OnConfigLoaded d a = Some a' → installs d a a'.
Proof.
  unfold run_listener, installs, untouched. intros H.
  destruct (get_field (heap a) d "spec") as [spec|] eqn:Hs; [|done]. simpl in H.
  exists spec. split; [done|].
  destruct (truthy spec); [|by injection H as <-].
  destruct (learning a) as [lrn|] eqn:Hl; [|done]. simpl in H.
  destruct (get_field (heap a) d "specDictionary") as [dict|] eqn:Hd; [|done].
  simpl in H. injection H as <-. exists lrn, dict. split_and!; try done.
  cbn [log emit set_log set_learning]. by rewrite added_maps_app.
Qed.

Lemma installs_frame (config : JsVal) (a b b' a' : App) :
  heap b = heap a → untouched a b → installs config b b' → untouched b' a' →
  installs config a a'.
Proof.
  unfold installs, untouched. intros Hh [Hl1 Hm1] (spec & Hs & H) [Hl2 Hm2].
  exists spec. rewrite <- Hh. split; [done|].
  destruct (truthy spec).
  - destruct H as (lrn & dict & ? & ? & ? & ?). exists lrn, dict.
    split_and!; congruence.
  - destruct H. split; congruence.
Qed.

Lemma emit_trigger_untouched (name : string) (d : JsVal) (subs : list Subscription)
    (a : App) :
  untouched a (set_subscriptions subs (emit (ETrigger name d) a)).
Proof.
  unfold untouched. cbn [log learning emit set_log set_subscriptions].
  by rewrite added_maps_app, app_nil_r.
Qed.

Lemma trigger_all_heap (evs : list (string * JsVal)) (a a' : App) :
  trigger_all evs a = Some a' → heap a' = heap a.
Proof.
  revert a. induction evs as [|[n d] evs IH]; intros a H; simpl in H.
  - by injection H as <-.
  - destruct (trigger n d a) as [b|] eqn:Ht; [|done]. simpl in H.
    rewrite (IH b H). by apply trigger_heap in Ht.
Qed.

(** Once the 'loaded' listener is gone, no event sends 'loadDone'. *)
Lemma spent_loaded_run (evs : list (string * JsVal)) (a a' : App) :
  spent OnLoaded a → trigger_all evs a = Some a' →
  sent "loadDone" (log a') = sent "loadDone" (log a).
Proof.
  revert a. induction evs as [|[n d] evs IH]; intros a Hs H; simpl in H.
  - by injection H as <-.
  - destruct (trigger n d a) as [b|] eqn:Ht; [|done]. simpl in H.
    destruct (trigger_spent _ _ _ _ _ Hs Ht) as (Hs' & ls & Hn & Hd).
    rewrite (IH b Hs' H), (dispatch_loadDone _ _ _ _ Hn Hd).
    cbn [log emit set_log set_subscriptions]. by rewrite sent_app, app_nil_r.
Qed.

(** While the 'loaded' listener is subscribed single-shot, a sequence of
    events sends 'loadDone' once if 'loaded' is among them, and not at all
    otherwise. *)
Lemma armed_loaded_run (evs : list (string * JsVal)) (a a' : App) :
  armed "loaded" OnLoaded a → trigger_all evs a = Some a' →
  sent "loadDone" (log a') =
  sent "loadDone" (log a) ++ (if emitted "loaded" evs then [VUndefined] else []).
Proof.
  revert a. induction evs as [|[n d] evs IH]; intros a Ha H; simpl in H.
  - injection H as <-. by rewrite app_nil_r.
  - destruct (trigger n d a) as [b|] eqn:Ht; [|done]. simpl in H.
    pose proof (trigger_armed _ _ _ _ _ _ Ha Ht) as Hcase.
    unfold emitted. cbn [existsb fst].
    destruct (String.eqb "loaded" n); cbn [orb].
    + destruct Hcase as (Hs & pre & post & b1 & b2 & Hpre & Hpost & H1 & H2 & H3).
      rewrite (spent_loaded_run _ _ _ Hs H).
      rewrite (dispatch_loadDone _ _ _ _ Hpost H3).
      rewrite (run_listener_loadDone _ _ _ _ H2).
      rewrite (dispatch_loadDone _ _ _ _ Hpre H1).
      cbn [log emit set_log set_subscriptions]. rewrite sent_app.
      rewrite decide_True by done. by rewrite app_nil_r.
    + destruct Hcase as (Ha' & ls & Hn & Hd).
      rewrite (IH b Ha' H), (dispatch_loadDone _ _ _ _ Hn Hd).
      cbn [log emit set_log set_subscriptions]. by rewrite sent_app, app_nil_r.
Qed.

Lemma trigger_config_spent (n : string) (d : JsVal) (a b : App) :
  spent OnConfigLoaded a → trigger n d a = Some b →
  spent OnConfigLoaded b ∧ untouched a b.
Proof.
  intros Hs Ht. destruct (trigger_spent _ _ _ _ _ Hs Ht) as (Hs' & ls & Hn & Hd).
  split; [done|].
  eapply untouched_trans; [apply emit_trigger_untouched|].
  by eapply dispatch_untouched.
Qed.

(** Once the 'configLoaded' listener is gone, no event installs
    anything. *)
Lemma spent_config_run (evs : list (string * JsVal)) (a a' : App) :
  spent OnConfigLoaded a → trigger_all evs a = Some a' → untouched a a'.
Proof.
  revert a. induction evs as [|[n d] evs IH]; intros a Hs H; simpl in H.
  - by injection H as <-.
  - destruct (trigger n d a) as [b|] eqn:Ht; [|done]. simpl in H.
    destruct (trigger_config_spent _ _ _ _ Hs Ht) as [Hs' Hu].
    by eapply untouched_trans, IH.
Qed.

(** While the 'configLoaded' listener is subscribed single-shot, a
    sequence of events installs from the first 'configLoaded' among them,
    and from no other. *)
Lemma armed_config_run (evs : list (string * JsVal)) (a a' : App) :
  armed "configLoaded" OnConfigLoaded a → trigger_all evs a = Some a' →
  match first_event "configLoaded" evs with
  | Some config => installs config a a'
  | None => untouched a a'
  end.
Proof.
  revert a. induction evs as [|[n d] evs IH]; intros a Ha H; simpl in H.
  - by injection H as <-.
  - destruct (trigger n d a) as [b|] eqn:Ht; [|done]. simpl in H.
    pose proof (trigger_armed _ _ _ _ _ _ Ha Ht) as Hcase.
    cbn [first_event]. rewrite String.eqb_sym.
    destruct (String.eqb "configLoaded" n).
    + destruct Hcase as (Hs & pre & post & b1 & b2 & Hpre & Hpost & H1 & H2 & H3).
      apply (installs_frame d a b1 b2 a').
      * rewrite (dispatch_heap _ _ _ _ H1). done.
      * eapply untouched_trans; [apply emit_trigger_untouched|].
        exact (dispatch_untouched _ _ _ _ Hpre H1).
      * by apply run_listener_installs.
      * eapply untouched_trans; [exact (dispatch_untouched _ _ _ _ Hpost H3)|].
        by eapply spent_config_run.
    + destruct Hcase as (Ha' & ls & Hn & Hd).
      assert (untouched a b) as Hu.
      { eapply untouched_trans; [apply emit_trigger_untouched|].
        by eapply dispatch_untouched. }
      specialize (IH b Ha' H).
      destruct (first_event "configLoaded" evs) as [config|].
      * apply (installs_frame config a b a' a'); try done.
        by apply trigger_heap in Ht.
      * by eapply untouched_trans.
Qed.

Lemma setup_plugins_state (container debug : bool) (a0 : App) :
  subscriptions (setup_plugins container debug a0) =
    subscriptions a0 ++
      [ {| sub_name := "learningEvent"; sub_once := false; sub_listener := OnLearningEvent |};
        {| sub_name := "analyticEvent"; sub_once := false; sub_listener := OnAnalyticEvent |};
        {| sub_name := "loaded"; sub_once := true; sub_listener := OnLoaded |};
        {| sub_name := "configLoaded"; sub_once := true; sub_listener := OnConfigLoaded |};
        {| sub_name := "endGame"; sub_once := true; sub_listener := OnEndGame |};
        {| sub_name := "init"; sub_once := true; sub_listener := OnInit |} ]
  ∧ messenger (setup_plugins container debug a0)
    = Some {| supported := container; inbound := [] |}
  ∧ learning (setup_plugins container debug a0)
    = Some {| learning_debug := debug; learning_spec := VUndefined;
              learning_bubbles := true |}
  ∧ heap (setup_plugins container debug a0) = heap a0
  ∧ log (setup_plugins container debug a0) = log a0 ++ [EConnect].
Proof.
  unfold setup_plugins, LearningPlugin.setup, ContainerPlugin.setup, options_add.
  destruct (options a0 !! "singlePlay"); cbn;
    destruct (_ !! "playOptions"); cbn; by rewrite <- !app_assoc.
Qed.

Lemma get_field_defined (h : gmap positive (gmap string JsVal)) (v : JsVal)
    (k k' : string) :
  is_Some (get_field h v k) → is_Some (get_field h v k').
Proof.
  unfold get_field. destruct v; try done.
  destruct (h !! l); cbn; [eauto | by intros [? ?]].
Qed.

Lemma run_config_defined (d : JsVal) (a : App) :
  is_Some (get_field (heap a) d "spec") → is_Some (learning a) →
  is_Some (run_listener OnConfigLoaded d a).
Proof.
  intros Hs [lrn Hl]. unfold run_listener.
  destruct (get_field_defined _ _ _ "specDictionary" Hs) as [dict ->].
  destruct Hs as [spec ->]. rewrite Hl. cbn [mbind option_bind].
  destruct (truthy spec); eauto.
Qed.

Lemma dispatch_single (l : Listener) (d : JsVal) (a : App) :
  dispatch [l] d a = run_listener l d a.
Proof. simpl. by destruct (run_listener l d a). Qed.

(** An event nobody is subscribed to is just logged. *)
Lemma trigger_unsubscribed (name : string) (d : JsVal) (a : App) :
  List.filter (subscribed_to name) (subscriptions a) = [] →
  is_Some (trigger name d a).
Proof. intros H. unfold trigger. rewrite H. simpl. eauto. Qed.

(** A listener subscribed single-shot, alone on its event: emitting the
    event twice completes as soon as the listener's first run does. *)
Lemma twice_defined (name : string) (l : Listener) (d1 d2 : JsVal) (a : App) :
  List.filter (subscribed_to name) (subscriptions a) =
    [{| sub_name := name; sub_once := true; sub_listener := l |}] →
  is_Some (run_listener l d1
             (set_subscriptions
                (List.filter (λ s, negb (single_shot_for name s)) (subscriptions a))
                (emit (ETrigger name d1) a))) →
  is_Some (trigger_all [(name, d1); (name, d2)] a).
Proof.
  intros Hsub [b Hb].
  assert (trigger name d1 a = Some b) as Ht.
  { unfold trigger. rewrite Hsub. cbn [fmap list_fmap sub_listener].
    by rewrite dispatch_single. }
  cbn [trigger_all]. rewrite Ht. cbn [mbind option_bind].
  destruct (trigger_unsubscribed name d2 b) as [b' ->]; [|by eauto].
  rewrite (trigger_subscriptions _ _ _ _ Ht), filter_filter_comm, Hsub.
  unfold List.filter, single_shot_for, subscribed_to. cbn [sub_name sub_once].
  by rewrite String.eqb_refl.
Qed.

(** C4.  On an application set up by the two plugins, whatever events
    are emitted afterwards: 'loadDone' is sent once if 'loaded' is among
    them and never otherwise; the dispatcher gets the spec and the
    dictionary of the first 'configLoaded', provided its [spec] is truthy,
    and nothing from any later one.  Emitting 'loaded' twice, or
    'configLoaded' twice, completes. *)
Theorem loaded_and_configLoaded_once (container debug : bool) (a0 : App)
    (Hfresh : subscriptions a0 = []) :
  (∀ evs a',
     trigger_all evs (setup_plugins container debug a0) = Some a' →
     sent "loadDone" (log a') =
       sent "loadDone" (log (setup_plugins container debug a0))
       ++ (if emitted "loaded" evs then [VUndefined] else [])
     ∧ match first_event "configLoaded" evs with
       | Some config => installs config (setup_plugins container debug a0) a'
       | None => untouched (setup_plugins container debug a0) a'
       end)
  ∧ (∀ d1 d2,
       is_Some (trigger_all [("loaded", d1); ("loaded", d2)]
                  (setup_plugins container debug a0)))
  ∧ (∀ config1 config2,
       is_Some (get_field (heap a0) config1 "spec") →
       is_Some (trigger_all [("configLoaded", config1); ("configLoaded", config2)]
                  (setup_plugins container debug a0))).
Proof.
  destruct (setup_plugins_state container debug a0) as (Hsub & Hmes & Hlrn & Hheap & Hlog).
  rewrite Hfresh, app_nil_l in Hsub. clear Hlog.
  generalize dependent (setup_plugins container debug a0).
  intros a Hsub Hmes Hlrn Hheap.
  split_and!.
  - intros evs a' Hrun. split.
    + apply armed_loaded_run; [|done]. unfold armed. by rewrite Hsub.
    + apply armed_config_run; [|done]. unfold armed. by rewrite Hsub.
  - intros d1 d2. apply (twice_defined "loaded" OnLoaded); [by rewrite Hsub|].
    cbn [run_listener]. unfold messenger_send.
    cbn [messenger set_subscriptions emit set_log]. rewrite Hmes. eauto.
  - intros config1 config2 [spec Hs].
    apply (twice_defined "configLoaded" OnConfigLoaded); [by rewrite Hsub|].
    apply run_config_defined.
    + cbn [heap set_subscriptions emit set_log]. rewrite Hheap, Hs. eauto.
    + cbn [learning set_subscriptions emit set_log]. rewrite Hlrn. eauto.
Qed.

Lemma loaded_and_configLoaded_once_witness :
  ∃ a', trigger_all sample_events (setup_plugins true false configured_app) = Some a'
        ∧ sent "loadDone" (log a') = [VUndefined]
        ∧ installs (VRef 1) (setup_plugins true false configured_app) a'.
Proof.
  destruct (trigger_all sample_events (setup_plugins true false configured_app))
    as [a'|] eqn:Hrun; [|vm_compute in Hrun; discriminate].
  destruct (proj1 (loaded_and_configLoaded_once true false configured_app eq_refl)
              sample_events a' Hrun) as [Hsent Hinst].
  exists a'. split; [reflexivity|]. split; [|exact Hinst].
  rewrite Hsent. vm_compute. reflexivity.
Defined.

(** ** Further properties of the two plugins *)

(** *** A listener observed through the log *)

(** What an event does with a listener that is subscribed exactly once:
    the subscription goes if it is single-shot and the event is its own,
    and the listener is called once if the event is its own. *)
Lemma trigger_single (l : Listener) (s0 : Subscription) (name : string) (d : JsVal)
    (a a' : App) :
  List.filter (has_listener l) (subscriptions a) = [s0] →
  trigger name d a = Some a' →
  List.filter (has_listener l) (subscriptions a') =
    (if single_shot_for name s0 then [] else [s0])
  ∧ ∃ pre post,
      ¬ In l pre ∧ ¬ In l post
      ∧ dispatch (pre ++ (if subscribed_to name s0 then [l] else []) ++ post) d
          (set_subscriptions
             (List.filter (λ s, negb (single_shot_for name s)) (subscriptions a))
             (emit (ETrigger name d) a)) = Some a'.
Proof.
  intros Ha Ht.
  pose proof (trigger_subscriptions _ _ _ _ Ht) as Hsub.
  destruct (called_armed l name _ _ Ha) as (pre & post & Hcalled & Hpre & Hpost).
  split.
  - rewrite Hsub, filter_filter_comm, Ha. cbn [List.filter].
    by destruct (single_shot_for name s0).
  - exists pre, post. split_and!; [done..|].
    unfold trigger in Ht. by rewrite Hcalled in Ht.
Qed.

Section Observed.

Context {X : Type} (L : Listener) (obs : list Effect → list X) (out : JsVal → list X).

Hypothesis obs_app : ∀ es1 es2, obs (es1 ++ es2) = obs es1 ++ obs es2.
Hypothesis obs_trigger : ∀ n d, obs [ETrigger n d] = [].
Hypothesis obs_other :
  ∀ l d a a', l ≠ L → run_listener l d a = Some a' → obs (log a') = obs (log a).
Hypothesis obs_own :
  ∀ d a a', run_listener L d a = Some a' → obs (log a') = obs (log a) ++ out d.

Lemma obs_emit_trigger (n : string) (d : JsVal) (subs : list Subscription) (a : App) :
  obs (log (set_subscriptions subs (emit (ETrigger n d) a))) = obs (log a).
Proof.
  cbn [log set_subscriptions emit set_log].
  by rewrite obs_app, obs_trigger, app_nil_r.
Qed.

Lemma dispatch_obs_other (ls : list Listener) (d : JsVal) (a a' : App) :
  ¬ In L ls → dispatch ls d a = Some a' → obs (log a') = obs (log a).
Proof.
  revert a. induction ls as [|l ls IH]; intros a Hn H; simpl in H.
  - by injection H as <-.
  - destruct (run_listener l d a) as [b|] eqn:Hl; [|done]. simpl in H.
    rewrite (IH b); [| |done].
    + apply (obs_other l d); [|done]. intros ->. apply Hn. by left.
    + intros Hin. apply Hn. by right.
Qed.

Lemma dispatch_obs_own (pre post : list Listener) (d : JsVal) (a a' : App) :
  ¬ In L pre → ¬ In L post → dispatch (pre ++ [L] ++ post) d a = Some a' →
  obs (log a') = obs (log a) ++ out d.
Proof.
  intros Hpre Hpost H. rewrite !dispatch_app in H.
  destruct (dispatch pre d a) as [b1|] eqn:E1; [|done]. simpl in H.
  destruct (run_listener L d b1) as [b2|] eqn:E2; [|done]. simpl in H.
  rewrite (dispatch_obs_other _ _ _ _ Hpost H), (obs_own _ _ _ E2).
  by rewrite (dispatch_obs_other _ _ _ _ Hpre E1).
Qed.

(** One event, seen through the observation. *)
Lemma trigger_obs (s0 : Subscription) (n : string) (d : JsVal) (a a' : App) :
  List.filter (has_listener L) (subscriptions a) = [s0] →
  trigger n d a = Some a' →
  obs (log a') = obs (log a) ++ (if subscribed_to n s0 then out d else []).
Proof.
  intros Ha Ht.
  destruct (trigger_single _ _ _ _ _ _ Ha Ht) as (_ & pre & post & Hpre & Hpost & Hd).
  destruct (subscribed_to n s0).
  - by rewrite (dispatch_obs_own _ _ _ _ _ Hpre Hpost Hd), obs_emit_trigger.
  - assert (¬ In L (pre ++ [] ++ post)) as Hn by (rewrite !in_app_iff; cbn; tauto).
    by rewrite app_nil_r, (dispatch_obs_other _ _ _ _ Hn Hd), obs_emit_trigger.
Qed.

Lemma run_obs_spent (evs : list (string * JsVal)) (a a' : App) :
  spent L a → trigger_all evs a = Some a' → obs (log a') = obs (log a).
Proof.
  revert a. induction evs as [|[n d] evs IH]; intros a Hs H; simpl in H.
  - by injection H as <-.
  - destruct (trigger n d a) as [b|] eqn:Ht; [|done]. simpl in H.
    destruct (trigger_spent _ _ _ _ _ Hs Ht) as (Hs' & ls & Hn & Hd).
    by rewrite (IH b Hs' H), (dispatch_obs_other _ _ _ _ Hn Hd), obs_emit_trigger.
Qed.

(** A single-shot listener is run by the first of its events only. *)
Lemma run_obs_armed (N : string) (evs : list (string * JsVal)) (a a' : App) :
  armed N L a → trigger_all evs a = Some a' →
  obs (log a') =
  obs (log a) ++ match first_event N evs with Some d => out d | None => [] end.
Proof.
  revert a. induction evs as [|[n d] evs IH]; intros a Ha H; simpl in H.
  - injection H as <-. by rewrite app_nil_r.
  - destruct (trigger n d a) as [b|] eqn:Ht; [|done]. simpl in H.
    pose proof (trigger_obs _ _ _ _ _ Ha Ht) as Hobs.
    destruct (trigger_single _ _ _ _ _ _ Ha Ht) as (Hsub & _).
    unfold single_shot_for, subscribed_to in Hobs, Hsub. cbn [sub_name sub_once] in *.
    cbn [first_event]. rewrite String.eqb_sym.
    destruct (String.eqb N n); cbn [andb] in Hsub.
    + by rewrite (run_obs_spent _ _ _ Hsub H), Hobs.
    + rewrite (IH b Hsub H), Hobs. by rewrite app_nil_r.
Qed.

(** A listener subscribed with [on] is run by every one of its events,
    in order. *)
Lemma run_obs_wired (N : string) (evs : list (string * JsVal)) (a a' : App) :
  wired N L a → trigger_all evs a = Some a' →
  obs (log a') = obs (log a) ++ flat_map out (occurrences N evs).
Proof.
  revert a. induction evs as [|[n d] evs IH]; intros a Ha H; simpl in H.
  - injection H as <-. by rewrite app_nil_r.
  - destruct (trigger n d a) as [b|] eqn:Ht; [|done]. simpl in H.
    pose proof (trigger_obs _ _ _ _ _ Ha Ht) as Hobs.
    destruct (trigger_single _ _ _ _ _ _ Ha Ht) as (Hsub & _).
    unfold single_shot_for, subscribed_to in Hobs, Hsub. cbn [sub_name sub_once] in *.
    rewrite andb_false_r in Hsub.
    rewrite (IH b Hsub H), Hobs. cbn [occurrences].
    destruct (String.eqb N n); cbn [flat_map]; by rewrite <- ?app_assoc, ?app_nil_r.
Qed.

End Observed.

(** *** The listeners of the learning plugin, and the forwarding listeners *)

Ltac listener_cases H :=
  unfold run_listener, messenger_send in H; simplify_option_eq;
  repeat match goal with
         | H' : context [match ?x with _ => _ end] |- _ =>
             destruct x eqn:?; simplify_option_eq
         end.

Lemma ended_games_app (es1 es2 : list Effect) :
  ended_games (es1 ++ es2) = ended_games es1 ++ ended_games es2.
Proof. apply omap_app. Qed.

Lemma started_games_app (es1 es2 : list Effect) :
  started_games (es1 ++ es2) = started_games es1 ++ started_games es2.
Proof. apply omap_app. Qed.

Lemma run_listener_ended_other (l : Listener) (d : JsVal) (a a' : App) :
  l ≠ OnEndGame → run_listener l d a = Some a' →
  ended_games (log a') = ended_games (log a).
Proof.
  intros Hl H. destruct l; try done; listener_cases H;
    cbn [log emit set_log set_learning]; rewrite ?ended_games_app, ?app_nil_r; done.
Qed.

Lemma run_listener_ended_own (d : JsVal) (a a' : App) :
  run_listener OnEndGame d a = Some a' →
  ended_games (log a') = ended_games (log a) ++ [d].
Proof.
  intros H. listener_cases H. cbn [log emit set_log]. by rewrite ended_games_app.
Qed.

Lemma run_listener_started_other (l : Listener) (d : JsVal) (a a' : App) :
  l ≠ OnInit → run_listener l d a = Some a' →
  started_games (log a') = started_games (log a).
Proof.
  intros Hl H. destruct l; try done; listener_cases H;
    cbn [log emit set_log set_learning]; rewrite ?started_games_app, ?app_nil_r; done.
Qed.

Lemma run_listener_started_own (d : JsVal) (a a' : App) :
  run_listener OnInit d a = Some a' →
  started_games (log a') = started_games (log a) ++ [tt].
Proof.
  intros H. listener_cases H. cbn [log emit set_log]. by rewrite started_games_app.
Qed.

Lemma run_listener_learningEvent_other (l : Listener) (d : JsVal) (a a' : App) :
  l ≠ OnLearningEvent → run_listener l d a = Some a' →
  sent "learningEvent" (log a') = sent "learningEvent" (log a).
Proof.
  intros Hl H. destruct l; try done; listener_cases H;
    cbn [log emit set_log set_learning]; rewrite ?sent_app, ?app_nil_r; done.
Qed.

Lemma run_listener_learningEvent_own (d : JsVal) (a a' : App) :
  run_listener OnLearningEvent d a = Some a' →
  sent "learningEvent" (log a') = sent "learningEvent" (log a) ++ [d].
Proof.
  intros H. listener_cases H. cbn [log emit set_log]. by rewrite sent_app.
Qed.

Lemma run_listener_analyticEvent_other (l : Listener) (d : JsVal) (a a' : App) :
  l ≠ OnAnalyticEvent → run_listener l d a = Some a' →
  sent "analyticEvent" (log a') = sent "analyticEvent" (log a).
Proof.
  intros Hl H. destruct l; try done; listener_cases H;
    cbn [log emit set_log set_learning]; rewrite ?sent_app, ?app_nil_r; done.
Qed.

Lemma run_listener_analyticEvent_own (d : JsVal) (a a' : App) :
  run_listener OnAnalyticEvent d a = Some a' →
  sent "analyticEvent" (log a') = sent "analyticEvent" (log a) ++ [d].
Proof.
  intros H. listener_cases H. cbn [log emit set_log]. by rewrite sent_app.
Qed.

Lemma flat_map_singleton {A : Type} (l : list A) : flat_map (λ x, [x]) l = l.
Proof. induction l as [|x l IH]; [done|]. simpl. by rewrite IH. Qed.

Lemma first_event_emitted {A : Type} (name : string) (evs : list (string * JsVal))
    (x y : A) :
  match first_event name evs with Some _ => x | None => y end
  = if emitted name evs then x else y.
Proof.
  induction evs as [|[n d] evs IH]; [done|]. unfold emitted in *. simpl.
  rewrite String.eqb_sym. by destruct (String.eqb name n).
Qed.

(** The dispatcher hears of the end of the game, and of its start, once:
    [learning.endGame] gets the exit type of the first 'endGame' event and
    of no later one, and [learning.startGame] is called for the first
    'init' only. *)
Theorem dispatcher_told_once (container debug : bool) (a0 : App)
    (evs : list (string * JsVal)) (a' : App)
    (Hfresh : subscriptions a0 = [])
    (Hrun : trigger_all evs (setup_plugins container debug a0) = Some a') :
  ended_games (log a') =
    ended_games (log (setup_plugins container debug a0))
    ++ match first_event "endGame" evs with Some exitType => [exitType] | None => [] end
  ∧ started_games (log a') =
      started_games (log (setup_plugins container debug a0))
      ++ (if emitted "init" evs then [tt] else []).
Proof.
  destruct (setup_plugins_state container debug a0) as (Hsub & _).
  rewrite Hfresh, app_nil_l in Hsub.
  generalize dependent (setup_plugins container debug a0). intros a Hrun Hsub.
  split.
  - apply (run_obs_armed OnEndGame ended_games (λ d, [d]) ended_games_app
             (λ _ _, eq_refl) run_listener_ended_other run_listener_ended_own
             "endGame" evs a a'); [|done].
    unfold armed. by rewrite Hsub.
  - rewrite <- (first_event_emitted "init" evs [tt] []).
    apply (run_obs_armed OnInit started_games (λ _, [tt]) started_games_app
             (λ _ _, eq_refl) run_listener_started_other run_listener_started_own
             "init" evs a a'); [|done].
    unfold armed. by rewrite Hsub.
Qed.

(** 'learningEvent' and 'analyticEvent' are passed to the messenger every
    time they are emitted, with their payload, in the order of emission:
    these two subscriptions are not used up. *)
Theorem events_forwarded_every_time (container debug : bool) (a0 : App)
    (evs : list (string * JsVal)) (a' : App)
    (Hfresh : subscriptions a0 = [])
    (Hrun : trigger_all evs (setup_plugins container debug a0) = Some a') :
  sent "learningEvent" (log a') =
    sent "learningEvent" (log (setup_plugins container debug a0))
    ++ occurrences "learningEvent" evs
  ∧ sent "analyticEvent" (log a') =
      sent "analyticEvent" (log (setup_plugins container debug a0))
      ++ occurrences "analyticEvent" evs.
Proof.
  destruct (setup_plugins_state container debug a0) as (Hsub & _).
  rewrite Hfresh, app_nil_l in Hsub.
  generalize dependent (setup_plugins container debug a0). intros a Hrun Hsub.
  split.
  - rewrite <- (flat_map_singleton (occurrences "learningEvent" evs)).
    apply (run_obs_wired OnLearningEvent (sent "learningEvent") (λ d, [d])
             (sent_app "learningEvent") (λ _ _, eq_refl)
             run_listener_learningEvent_other run_listener_learningEvent_own
             "learningEvent" evs a a'); [|done].
    unfold wired. by rewrite Hsub.
  - rewrite <- (flat_map_singleton (occurrences "analyticEvent" evs)).
    apply (run_obs_wired OnAnalyticEvent (sent "analyticEvent") (λ d, [d])
             (sent_app "analyticEvent") (λ _ _, eq_refl)
             run_listener_analyticEvent_other run_listener_analyticEvent_own
             "analyticEvent" evs a a'); [|done].
    unfold wired. by rewrite Hsub.
Qed.

Lemma dispatcher_told_once_witness :
  ∃ a', trigger_all lifecycle_events (setup_plugins true false (new_app ∅)) = Some a'
        ∧ ended_games (log a') = [VStr "quit"]
        ∧ started_games (log a') = [tt].
Proof.
  destruct (trigger_all lifecycle_events (setup_plugins true false (new_app ∅)))
    as [a'|] eqn:Hrun; [|vm_compute in Hrun; discriminate].
  destruct (dispatcher_told_once true false (new_app ∅) lifecycle_events a' eq_refl Hrun)
    as [He Hs].
  exists a'. split; [reflexivity|]. split.
  - rewrite He. vm_compute. reflexivity.
  - rewrite Hs. vm_compute. reflexivity.
Defined.

Lemma events_forwarded_every_time_witness :
  ∃ a', trigger_all lifecycle_events (setup_plugins true false (new_app ∅)) = Some a'
        ∧ sent "learningEvent" (log a') = [VNum 1; VNum 2]
        ∧ sent "analyticEvent" (log a') = [VStr "click"].
Proof.
  destruct (trigger_all lifecycle_events (setup_plugins true false (new_app ∅)))
    as [a'|] eqn:Hrun; [|vm_compute in Hrun; discriminate].
  destruct (events_forwarded_every_time true false (new_app ∅) lifecycle_events a'
              eq_refl Hrun) as [Hl Ha].
  exists a'. split; [reflexivity|]. split.
  - rewrite Hl. vm_compute. reflexivity.
  - rewrite Ha. vm_compute. reflexivity.
Defined.

(** *** endGame with both plugins *)

Lemma endGame_with_dispatcher (v : JsVal) (a : App) (lrn : Learning) :
  List.filter (subscribed_to "endGame") (subscriptions a) =
    [{| sub_name := "endGame"; sub_once := true; sub_listener := OnEndGame |}] →
  learning a = Some lrn →
  ∃ a', ContainerPlugin.endGame v a = Some a'
        ∧ log a' = log a ++ [ ETrigger "endGame" (js_or v (VStr "game_completed"));
                              ELearningEndGame (js_or v (VStr "game_completed"));
                              EDestroy ]
        ∧ learning a' = Some lrn
        ∧ destroyed a' = true
        ∧ List.filter (subscribed_to "endGame") (subscriptions a') = [].
Proof.
  intros Hsub Hl. unfold ContainerPlugin.endGame, trigger. rewrite Hsub.
  cbn [fmap list_fmap sub_listener]. rewrite dispatch_single.
  unfold run_listener. cbn [learning set_subscriptions emit set_log]. rewrite Hl.
  cbn [mbind option_bind]. eexists. split; [reflexivity|].
  cbn [log learning destroyed subscriptions destroy set_destroyed emit set_log
       set_subscriptions].
  rewrite <- !app_assoc. split_and!; [done..|].
  rewrite filter_filter_comm, Hsub. unfold List.filter, single_shot_for, subscribed_to.
  cbn [sub_name sub_once]. by rewrite String.eqb_refl.
Qed.

(** With both plugins set up, [endGame] always completes: the 'endGame'
    event, then [learning.endGame] with the exit type the event carries
    (the default 'game_completed' included), then the destroy, in this
    order.  A 'close' message of the container does the same with
    'closed_container'. *)
Theorem endGame_tells_dispatcher (container debug : bool) (a0 : App) (v : JsVal)
    (Hfresh : subscriptions a0 = []) :
  (∃ a', ContainerPlugin.endGame v (setup_plugins container debug a0) = Some a'
         ∧ log a' = log (setup_plugins container debug a0)
                    ++ [ ETrigger "endGame" (js_or v (VStr "game_completed"));
                         ELearningEndGame (js_or v (VStr "game_completed"));
                         EDestroy ]
         ∧ destroyed a' = true)
  ∧ (truthy v = true → js_or v (VStr "game_completed") = v)
  ∧ (∃ a', ContainerPlugin.onClose (setup_plugins container debug a0) = Some a'
           ∧ log a' = log (setup_plugins container debug a0)
                      ++ [ ETrigger "endGame" (VStr "closed_container");
                           ELearningEndGame (VStr "closed_container");
                           EDestroy ]).
Proof.
  destruct (setup_plugins_state container debug a0) as (Hsub & _ & Hlrn & _).
  rewrite Hfresh, app_nil_l in Hsub.
  generalize dependent (setup_plugins container debug a0). intros a Hsub Hlrn.
  assert (List.filter (subscribed_to "endGame") (subscriptions a) =
          [{| sub_name := "endGame"; sub_once := true; sub_listener := OnEndGame |}])
    as Hend by (by rewrite Hsub).
  split_and!.
  - destruct (endGame_with_dispatcher v a _ Hend Hlrn) as (a' & H1 & H2 & _ & H3 & _).
    by exists a'.
  - intros Ht. unfold js_or. by rewrite Ht.
  - destruct (endGame_with_dispatcher (VStr "closed_container") a _ Hend Hlrn)
      as (a' & H1 & H2 & _).
    by exists a'.
Qed.

Lemma endGame_tells_dispatcher_witness :
  ∃ a', ContainerPlugin.endGame VUndefined (setup_plugins true false (new_app ∅)) = Some a'
        ∧ log a' = [ EConnect; ETrigger "endGame" (VStr "game_completed");
                     ELearningEndGame (VStr "game_completed"); EDestroy ].
Proof.
  destruct (endGame_tells_dispatcher true false (new_app ∅) VUndefined eq_refl)
    as ((a' & H1 & H2 & _) & _).
  exists a'. split; [exact H1|]. rewrite H2. vm_compute. reflexivity.
Defined.

(** *** preload inside a container *)

Lemma features_frame (a b : App) :
  sound b = sound a → learning b = learning a → hints b = hints a →
  captions b = captions a → ContainerPlugin.features b = ContainerPlugin.features a.
Proof.
  intros Hs Hl Hh Hc. unfold ContainerPlugin.features, ContainerPlugin.contextExists.
  by rewrite Hs, Hl, Hh, Hc.
Qed.

(** Inside a container, [preload] adds the ten handlers to the
    messenger, sends one message, 'features', with a new object that holds
    the seven flags, turns [autoPause] off and installs the visibility
    watcher, whose callbacks send 'focus' with [true] and [false]; beyond
    the two copied options nothing else of the application changes. *)
Theorem preload_in_container (a : App) (m : Messenger)
    (Hm : messenger a = Some m)
    (Hsupported : supported m = true) :
  ∃ a' l,
    ContainerPlugin.preload a = Some a'
    ∧ messenger a' = Some {| supported := true;
                             inbound := inbound m ++ ContainerPlugin.inbound_handlers |}
    ∧ log a' = log a ++ [ESend "features" (VRef l)]
    ∧ heap a !! l = None
    ∧ heap a' !! l = Some (ContainerPlugin.features a)
    ∧ autoPause a' = false
    ∧ pageVisibility a' = true
    ∧ ContainerPlugin.onShow a' = emit (ESend "focus" (VBool true)) a'
    ∧ ContainerPlugin.onHide a' = emit (ESend "focus" (VBool false)) a'
    ∧ singlePlay a' = js_bool (option_value "singlePlay" a)
    ∧ paused a' = paused a ∧ enabled a' = enabled a
    ∧ sound a' = sound a ∧ captions a' = captions a ∧ learning a' = learning a
    ∧ subscriptions a' = subscriptions a ∧ window a' = window a
    ∧ destroyed a' = destroyed a.
Proof.
  rewrite (preload_unfold a m Hm), Hsupported.
  pose proof (copy_options_frame a) as Hf.
  destruct (copy_options_playOptions a) as (_ & Hk & _).
  set (b := set_messenger _ (copy_options a)).
  assert (ContainerPlugin.features b = ContainerPlugin.features a) as Hfeat.
  { apply features_frame; subst b; cbn [sound learning hints captions set_messenger];
      by rewrite Hf. }
  destruct (alloc_fresh (ContainerPlugin.features b) (heap b)) as (Hfresh & Hnew & _).
  eexists _, (alloc (ContainerPlugin.features b) (heap b)).1.
  split; [reflexivity|].
  cbn -[alloc ContainerPlugin.features b].
  split_and!; try done; try (subst b; cbn; by rewrite Hf).
  - destruct (heap a !! _) as [x|] eqn:E; [|done].
    apply Hk in E. subst b. cbn [heap set_messenger] in E, Hfresh. congruence.
  - by rewrite <- Hfeat.
Qed.

Lemma preload_in_container_witness :
  ∃ a', ContainerPlugin.preload contained_app = Some a'
        ∧ sent_names (log a') = ["features"]
        ∧ autoPause a' = false.
Proof.
  destruct (preload_in_container contained_app {| supported := true; inbound := [] |}
              eq_refl eq_refl) as (a' & l & Hpre & _ & Hlog & _ & _ & Hauto & _).
  exists a'. split_and!; [exact Hpre | | exact Hauto].
  rewrite Hlog. reflexivity.
Defined.

(** *** The inbound messages *)

Lemma receive_unknown (name : string) (d : JsVal) (a : App) (m : Messenger) :
  messenger a = Some m → inbound m = ContainerPlugin.inbound_handlers →
  ¬ In name (fst <$> ContainerPlugin.inbound_handlers) →
  ContainerPlugin.receive name d a = Some a.
Proof.
  intros Hm Hi Hn. unfold ContainerPlugin.receive. rewrite Hm, Hi.
  assert (List.filter (λ p : string * Inbound, String.eqb p.1 name)
            ContainerPlugin.inbound_handlers = []) as ->; [|done].
  revert Hn. generalize ContainerPlugin.inbound_handlers.
  intros hs. induction hs as [|[n h] hs IH]; intros Hn; [done|].
  cbn [List.filter fst]. destruct (String.eqb_spec n name) as [->|Hne].
  - exfalso. apply Hn. by left.
  - apply IH. intros Hin. apply Hn. by right.
Qed.

(** The table given to [messenger.on]: each of the ten message names runs
    its own handler, the three context messages with the contexts
    'music', 'vo' and 'sfx'; a message under any other name changes
    nothing. *)
Theorem messages_reach_their_handlers (a : App) (m : Messenger) (d : JsVal)
    (Hm : messenger a = Some m)
    (Hhandlers : inbound m = ContainerPlugin.inbound_handlers) :
  ContainerPlugin.receive "soundMuted" d a = ContainerPlugin.onSoundMuted d a
  ∧ ContainerPlugin.receive "captionsMuted" d a = ContainerPlugin.onCaptionsMuted d a
  ∧ ContainerPlugin.receive "musicMuted" d a = ContainerPlugin.onContextMuted "music" d a
  ∧ ContainerPlugin.receive "voMuted" d a = ContainerPlugin.onContextMuted "vo" d a
  ∧ ContainerPlugin.receive "sfxMuted" d a = ContainerPlugin.onContextMuted "sfx" d a
  ∧ ContainerPlugin.receive "captionsStyles" d a = ContainerPlugin.onCaptionsStyles d a
  ∧ ContainerPlugin.receive "singlePlay" d a = ContainerPlugin.onSinglePlay a
  ∧ ContainerPlugin.receive "playOptions" d a = ContainerPlugin.onPlayOptions d a
  ∧ ContainerPlugin.receive "close" d a = ContainerPlugin.onClose a
  ∧ (∀ name, ¬ In name (fst <$> ContainerPlugin.inbound_handlers) →
             ContainerPlugin.receive name d a = Some a).
Proof.
  split_and!.
  - apply (receive_wired _ SoundMuted _ _ m Hm Hhandlers). cbn. tauto.
  - apply (receive_wired _ CaptionsMuted _ _ m Hm Hhandlers). cbn. tauto.
  - apply (receive_wired _ (ContextMuted "music") _ _ m Hm Hhandlers). cbn. tauto.
  - apply (receive_wired _ (ContextMuted "vo") _ _ m Hm Hhandlers). cbn. tauto.
  - apply (receive_wired _ (ContextMuted "sfx") _ _ m Hm Hhandlers). cbn. tauto.
  - apply (receive_wired _ CaptionsStyles _ _ m Hm Hhandlers). cbn. tauto.
  - apply (receive_wired _ SinglePlay _ _ m Hm Hhandlers). cbn. tauto.
  - apply (receive_wired _ PlayOptions _ _ m Hm Hhandlers). cbn. tauto.
  - apply (receive_wired _ Close _ _ m Hm Hhandlers). cbn. tauto.
  - intros name Hn. by apply (receive_unknown name d a m).
Qed.

Lemma messages_reach_their_handlers_witness :
  ContainerPlugin.receive "voMuted" (VBool true)
    (set_messenger
       (Some {| supported := true; inbound := ContainerPlugin.inbound_handlers |})
       (new_app ∅))
  = ContainerPlugin.onContextMuted "vo" (VBool true)
      (set_messenger
         (Some {| supported := true; inbound := ContainerPlugin.inbound_handlers |})
         (new_app ∅)).
Proof.
  destruct (messages_reach_their_handlers
              (set_messenger
                 (Some {| supported := true;
                          inbound := ContainerPlugin.inbound_handlers |})
                 (new_app ∅))
              {| supported := true; inbound := ContainerPlugin.inbound_handlers |}
              (VBool true) eq_refl eq_refl) as (_ & _ & _ & H & _).
  exact H.
Defined.

(** The mute handlers do not check for their collaborator: without a
    sound object each of the four sound messages ends in a [TypeError],
    and so does 'captionsMuted' without captions, although [preload]
    registers the handlers in every application.  With the collaborator
    the message sets the one flag, to the boolean of the payload, and
    nothing else. *)
Theorem mute_messages_need_their_object (a : App) (m : Messenger) (d : JsVal)
    (Hm : messenger a = Some m)
    (Hhandlers : inbound m = ContainerPlugin.inbound_handlers) :
  (sound a = None →
     ContainerPlugin.receive "soundMuted" d a = None
     ∧ ContainerPlugin.receive "musicMuted" d a = None
     ∧ ContainerPlugin.receive "voMuted" d a = None
     ∧ ContainerPlugin.receive "sfxMuted" d a = None)
  ∧ (captions a = None → ContainerPlugin.receive "captionsMuted" d a = None)
  ∧ (∀ s, sound a = Some s →
       ContainerPlugin.receive "soundMuted" d a =
         Some (set_sound (Some {| sound_muteAll := js_bool d;
                                  sound_contexts := sound_contexts s |}) a)
       ∧ ∀ name context,
           In (name, context) [("musicMuted", "music"); ("voMuted", "vo"); ("sfxMuted", "sfx")] →
           ContainerPlugin.receive name d a =
             Some (set_sound (Some (ContainerPlugin.setContextMute context (js_bool d) s)) a))
  ∧ (∀ c, captions a = Some c →
       ContainerPlugin.receive "captionsMuted" d a =
         Some (set_captions (Some {| captions_muteAll := js_bool d;
                                     textField := textField c |}) a)).
Proof.
  assert (∀ name h, In (name, h) ContainerPlugin.inbound_handlers →
            ContainerPlugin.receive name d a = ContainerPlugin.run_inbound h d a) as R.
  { intros name h. apply (receive_wired name h d a m Hm Hhandlers). }
  split_and!.
  - intros Hs.
    rewrite (R "soundMuted" SoundMuted), (R "musicMuted" (ContextMuted "music")),
      (R "voMuted" (ContextMuted "vo")), (R "sfxMuted" (ContextMuted "sfx"))
      by (cbn; tauto).
    cbn. unfold ContainerPlugin.onSoundMuted, ContainerPlugin.onContextMuted.
    by rewrite Hs.
  - intros Hc. rewrite (R "captionsMuted" CaptionsMuted) by (cbn; tauto).
    cbn. unfold ContainerPlugin.onCaptionsMuted. by rewrite Hc.
  - intros s Hs. split.
    + rewrite (R "soundMuted" SoundMuted) by (cbn; tauto).
      cbn. unfold ContainerPlugin.onSoundMuted. by rewrite Hs.
    + intros name context Hin. cbn in Hin.
      destruct Hin as [[= <- <-]|[[= <- <-]|[[= <- <-]|[]]]].
      * rewrite (R "musicMuted" (ContextMuted "music")) by (cbn; tauto).
        cbn. unfold ContainerPlugin.onContextMuted. by rewrite Hs.
      * rewrite (R "voMuted" (ContextMuted "vo")) by (cbn; tauto).
        cbn. unfold ContainerPlugin.onContextMuted. by rewrite Hs.
      * rewrite (R "sfxMuted" (ContextMuted "sfx")) by (cbn; tauto).
        cbn. unfold ContainerPlugin.onContextMuted. by rewrite Hs.
  - intros c Hc. rewrite (R "captionsMuted" CaptionsMuted) by (cbn; tauto).
    cbn. unfold ContainerPlugin.onCaptionsMuted. by rewrite Hc.
Qed.

Lemma mute_messages_need_their_object_witness :
  ContainerPlugin.receive "soundMuted" (VBool true)
    (set_messenger
       (Some {| supported := true; inbound := ContainerPlugin.inbound_handlers |})
       (new_app ∅)) = None.
Proof.
  destruct (mute_messages_need_their_object
              (set_messenger
                 (Some {| supported := true;
                          inbound := ContainerPlugin.inbound_handlers |})
                 (new_app ∅))
              {| supported := true; inbound := ContainerPlugin.inbound_handlers |}
              (VBool true) eq_refl eq_refl) as (H & _).
  destruct (H eq_refl) as [H1 _]. exact H1.
Defined.

(** *** Single play *)

(** The 'singlePlay' message turns single-play mode on and changes nothing
    else, however often it comes; after it [singlePlayEnd()] is
    [endGame()]: one 'endGame' event with 'game_completed', and the
    destroy. *)
Theorem singlePlay_message_then_end (a : App) :
  ContainerPlugin.onSinglePlay a = Some (set_singlePlay true a)
  ∧ ContainerPlugin.onSinglePlay (set_singlePlay true a) = Some (set_singlePlay true a)
  ∧ match ContainerPlugin.onSinglePlay a ≫= ContainerPlugin.singlePlayEnd with
    | Some a' =>
        triggered "endGame" (log a') = triggered "endGame" (log a) ++ [VStr "game_completed"]
        ∧ destroyed a' = true
        ∧ singlePlay a' = true
    | None => ready_for "endGame" a = false
    end.
Proof.
  split; [done|]. split; [done|].
  change (ContainerPlugin.onSinglePlay a ≫= ContainerPlugin.singlePlayEnd)
    with (ContainerPlugin.endGame VUndefined (set_singlePlay true a)).
  destruct (ContainerPlugin.endGame VUndefined (set_singlePlay true a)) as [a'|] eqn:He.
  - split_and!.
    + by apply endGame_triggered in He.
    + apply endGame_shape in He as (mid & -> & _). done.
    + apply endGame_shape in He as (mid & -> & _). done.
  - by apply endGame_fails in He.
Qed.

(** [preload] sets [singlePlay] to the boolean of the option, whatever it
    was before; with the default registered by [setup] the mode is off and
    [singlePlayEnd()] does nothing. *)
Theorem preload_singlePlay_option (a : App) (m : Messenger)
    (Hm : messenger a = Some m) :
  ∃ a', ContainerPlugin.preload a = Some a'
        ∧ singlePlay a' = truthy (option_value "singlePlay" a)
        ∧ (truthy (option_value "singlePlay" a) = false →
             ContainerPlugin.singlePlayEnd a' = Some a')
        ∧ (∀ container a0, options a0 !! "singlePlay" = None →
             option_value "singlePlay" (ContainerPlugin.setup container a0) = VBool false).
Proof.
  assert (∃ a', ContainerPlugin.preload a = Some a'
                ∧ singlePlay a' = truthy (option_value "singlePlay" a))
    as (a' & Hpre & Hsp).
  { rewrite (preload_unfold a m Hm). pose proof (copy_options_frame a) as Hf.
    destruct (supported m); eexists; (split; [reflexivity|]); cbn; by rewrite Hf. }
  exists a'. split_and!; [done..| |].
  - intros Hfalse. unfold ContainerPlugin.singlePlayEnd. by rewrite Hsp, Hfalse.
  - intros container a0 Hn. unfold ContainerPlugin.setup, option_value, options_add.
    rewrite Hn. cbn.
    destruct (<["singlePlay":=VBool false]> (options a0) !! "playOptions") eqn:E; cbn;
      rewrite ?lookup_insert_ne by done; by rewrite lookup_insert_eq.
Qed.

Lemma preload_singlePlay_option_witness :
  ∃ a', ContainerPlugin.preload contained_app = Some a'
        ∧ ContainerPlugin.singlePlayEnd a' = Some a'.
Proof.
  destruct (preload_singlePlay_option contained_app
              {| supported := true; inbound := [] |} eq_refl)
    as (a' & Hpre & _ & Hend & _).
  exists a'. split; [exact Hpre|]. apply Hend. vm_compute. reflexivity.
Defined.

(** *** Pause *)

(** Of two 'pause' messages the later one decides, and a message that
    comes twice counts once.  No other message of the container, 'close'
    apart, which ends the game, changes [paused] or [enabled]. *)
Theorem pause_last_message_decides (d1 d2 : JsVal) (a : App) :
  ContainerPlugin.onPause d1 a ≫= ContainerPlugin.onPause d2 = ContainerPlugin.onPause d2 a
  ∧ ContainerPlugin.onPause d1 a ≫= ContainerPlugin.onPause d1 = ContainerPlugin.onPause d1 a
  ∧ ∀ h a', h ≠ Pause → h ≠ Close →
            ContainerPlugin.run_inbound h d1 a = Some a' →
            paused a' = paused a ∧ enabled a' = enabled a.
Proof.
  split_and!; [done..|].
  intros h a' Hp Hc H. destruct h; try done; cbn in H.
  - unfold ContainerPlugin.onSoundMuted in H. by simplify_option_eq.
  - unfold ContainerPlugin.onCaptionsMuted in H. by simplify_option_eq.
  - unfold ContainerPlugin.onContextMuted in H. by simplify_option_eq.
  - unfold ContainerPlugin.onCaptionsStyles in H.
    repeat match type of H with
           | context [match ?x with _ => _ end] => destruct x
           end; by simplify_option_eq.
  - unfold ContainerPlugin.onSinglePlay in H. by simplify_option_eq.
  - unfold ContainerPlugin.onPlayOptions in H. by simplify_option_eq.
Qed.

Lemma pause_last_message_decides_witness :
  paused (set_singlePlay true (new_app ∅)) = paused (new_app ∅)
  ∧ enabled (set_singlePlay true (new_app ∅)) = enabled (new_app ∅).
Proof.
  destruct (pause_last_message_decides VNull VNull (new_app ∅)) as (_ & _ & Hother).
  apply (Hother SinglePlay); [discriminate | discriminate | reflexivity].
Defined.

(** *** Caption styles at the edges *)

(** With a caption text element: a payload that is [null] or [undefined]
    ends in a [TypeError]; a field the payload does not have comes out as
    'undefined' in the class; and the class is replaced, not extended, so
    that a second message has the result it would have had alone.  The
    element keeps its [nodeName] and the captions their mute flag. *)
Theorem captionsStyles_edges (a : App) (c : Captions) (tf : TextField)
    (Hcaptions : captions a = Some c)
    (Hfield : textField c = Some tf)
    (Helement : truthy (nodeName tf) = true) :
  ContainerPlugin.onCaptionsStyles VNull a = None
  ∧ ContainerPlugin.onCaptionsStyles VUndefined a = None
  ∧ (∀ l, heap a !! l = Some ∅ →
       ∃ a', ContainerPlugin.onCaptionsStyles (VRef l) a = Some a'
             ∧ className <$> text_element a' =
               Some "size-undefined bg-undefined color-undefined edge-undefined font-undefined align-undefined")
  ∧ (∀ d1 d2 a1, ContainerPlugin.onCaptionsStyles d1 a = Some a1 →
       ContainerPlugin.onCaptionsStyles d2 a1 = ContainerPlugin.onCaptionsStyles d2 a
       ∧ nodeName <$> text_element a1 = Some (nodeName tf)
       ∧ captions_muteAll <$> captions a1 = Some (captions_muteAll c)
       ∧ a1 = set_captions (captions a1) a).
Proof.
  unfold ContainerPlugin.onCaptionsStyles. rewrite Hcaptions, Hfield, Helement.
  split_and!; [done | done | |].
  - intros l Hl. cbn. rewrite Hl. cbn. eexists. split; [reflexivity|].
    unfold text_element. cbn. by rewrite Helement.
  - intros d1 d2 a1 H.
    destruct (get_field (heap a) d1 "size") as [v1|]; [|done].
    destruct (get_field (heap a) d1 "background") as [v2|]; [|done].
    destruct (get_field (heap a) d1 "color") as [v3|]; [|done].
    destruct (get_field (heap a) d1 "edge") as [v4|]; [|done].
    destruct (get_field (heap a) d1 "font") as [v5|]; [|done].
    destruct (get_field (heap a) d1 "align") as [v6|]; [|done].
    cbn in H. injection H as <-. unfold text_element. cbn. rewrite Helement.
    split_and!; done.
Qed.

Lemma captionsStyles_edges_witness :
  ContainerPlugin.onCaptionsStyles VNull captioned_app = None.
Proof.
  destruct (captionsStyles_edges captioned_app
              {| captions_muteAll := false;
                 textField := Some {| nodeName := VStr "DIV"; className := "" |} |}
              {| nodeName := VStr "DIV"; className := "" |}
              eq_refl eq_refl eq_refl) as (H & _).
  exact H.
Defined.

(** *** After teardown *)

(** [teardown] of the container plugin cannot be repeated, and leaves the
    listeners of [setup] subscribed: after it the messenger is [null], a
    second [teardown] ends in a [TypeError], and so does every event that
    still has one of the forwarding listeners ('learningEvent',
    'analyticEvent', a first 'loaded').  The watcher is gone, so showing
    or hiding the page sends nothing. *)
Theorem teardown_not_repeatable (a a' : App)
    (Hdone : ContainerPlugin.teardown a = Some a') :
  messenger a' = None
  ∧ ContainerPlugin.teardown a' = None
  ∧ subscriptions a' = subscriptions a
  ∧ ContainerPlugin.onShow a' = a'
  ∧ ContainerPlugin.onHide a' = a'
  ∧ ∀ s d, In s (subscriptions a) → needs_messenger (sub_listener s) = true →
           trigger (sub_name s) d a' = None.
Proof.
  unfold ContainerPlugin.teardown, messenger_send in Hdone.
  assert (messenger a' = None ∧ subscriptions a' = subscriptions a
          ∧ pageVisibility a' = false) as (Hm & Hs & Hv).
  { destruct (pageVisibility a) eqn:Ev; cbn in Hdone; destruct (messenger a) eqn:E;
      cbn in Hdone; rewrite ?E in Hdone; try done; injection Hdone as <-; cbn;
      by rewrite ?Ev. }
  split_and!; try done.
  - unfold ContainerPlugin.teardown, messenger_send. rewrite Hv. cbn. by rewrite Hm.
  - unfold ContainerPlugin.onShow. by rewrite Hv.
  - unfold ContainerPlugin.onHide. by rewrite Hv.
  - intros s d Hin Hneeds. rewrite <- Hs in Hin.
    apply (trigger_fails (λ x, messenger x = None) needs_messenger); try done.
    + intros l d0 x x' Hx Hrun.
      destruct (run_listener_step _ _ _ _ Hrun) as (mid & -> & _). exact Hx.
    + intros l d0 x Hx Hl. unfold run_listener, messenger_send.
      destruct l; try done; by rewrite Hx.
Qed.

Lemma teardown_not_repeatable_witness :
  ∃ a', ContainerPlugin.teardown contained_app = Some a'
        ∧ ContainerPlugin.teardown a' = None
        ∧ trigger "learningEvent" (VNum 1) a' = None.
Proof.
  destruct (ContainerPlugin.teardown contained_app) as [a'|] eqn:Hdone;
    [|vm_compute in Hdone; discriminate].
  destruct (teardown_not_repeatable contained_app a' Hdone) as (_ & Hagain & _ & _ & _ & Hev).
  exists a'. split_and!; [reflexivity | exact Hagain |].
  apply (Hev {| sub_name := "learningEvent"; sub_once := false;
                sub_listener := OnLearningEvent |}); [|reflexivity].
  vm_compute. tauto.
Defined.

(** [teardown] of the learning plugin is guarded, so it can be repeated:
    it destroys the dispatcher once and sets the field to [null], or does
    nothing when there is none.  It leaves the listeners of [setup]
    subscribed: while they are, an 'endGame' or an 'init' event emitted
    after it ends in a [TypeError], and so does a 'configLoaded' event
    whose payload has a truthy [spec] (with a falsy [spec] that listener
    does not touch the dispatcher and the event goes through it
    unchanged); [endGame] of the container plugin fails with them. *)
Theorem learning_teardown_repeatable (a : App) :
  LearningPlugin.teardown (LearningPlugin.teardown a) = LearningPlugin.teardown a
  ∧ learning (LearningPlugin.teardown a) = None
  ∧ subscriptions (LearningPlugin.teardown a) = subscriptions a
  ∧ match learning a with
    | Some _ => log (LearningPlugin.teardown a) = log a ++ [ELearningDestroy]
    | None => LearningPlugin.teardown a = a
    end
  ∧ (∀ s d, In s (subscriptions a) → needs_learning (sub_listener s) = true →
            trigger (sub_name s) d (LearningPlugin.teardown a) = None)
  ∧ (∀ v once, In {| sub_name := "endGame"; sub_once := once; sub_listener := OnEndGame |}
                 (subscriptions a) →
               ContainerPlugin.endGame v (LearningPlugin.teardown a) = None)
  ∧ (∀ s config spec,
       In s (subscriptions a) → sub_listener s = OnConfigLoaded →
       get_field (heap a) config "spec" = Some spec → truthy spec = true →
       trigger (sub_name s) config (LearningPlugin.teardown a) = None)
  ∧ (∀ config spec,
       get_field (heap a) config "spec" = Some spec → truthy spec = false →
       run_listener OnConfigLoaded config (LearningPlugin.teardown a)
       = Some (LearningPlugin.teardown a)).
Proof.
  assert (learning (LearningPlugin.teardown a) = None
          ∧ subscriptions (LearningPlugin.teardown a) = subscriptions a
          ∧ heap (LearningPlugin.teardown a) = heap a) as (Hl & Hs & Hh).
  { unfold LearningPlugin.teardown. by destruct (learning a) eqn:E. }
  assert (∀ s d, In s (subscriptions a) → needs_learning (sub_listener s) = true →
            trigger (sub_name s) d (LearningPlugin.teardown a) = None) as Hev.
  { intros s d Hin Hneeds. rewrite <- Hs in Hin. by apply trigger_without_learning. }
  split_and!; try done.
  - unfold LearningPlugin.teardown at 1. by rewrite Hl.
  - unfold LearningPlugin.teardown. by destruct (learning a).
  - intros v once Hin. unfold ContainerPlugin.endGame.
    pose proof (Hev _ (js_or v (VStr "game_completed")) Hin eq_refl) as Hnone.
    cbn [sub_name] in Hnone. by rewrite Hnone.
  - intros s config spec Hin Hcfg Hspec Htruthy. rewrite <- Hs in Hin.
    apply (trigger_fails_at
             (λ x, learning x = None ∧ heap x = heap a)
             (λ l, bool_decide (l = OnConfigLoaded)) config); try done.
    + intros l x x' [Hx Hhx] Hrun.
      destruct (run_listener_step _ _ _ _ Hrun) as (mid & Hx' & _ & Hiff).
      split.
      * destruct (learning x') eqn:E; [|done].
        assert (is_Some (learning x)) as [? ?] by (apply Hiff; eauto). congruence.
      * rewrite Hx'. exact Hhx.
    + intros l x [Hx Hhx] ->%bool_decide_eq_true. unfold run_listener.
      rewrite Hhx, Hspec. cbn. rewrite Htruthy. by rewrite Hx.
    + by apply bool_decide_eq_true.
  - intros config spec Hspec Hfalsy. unfold run_listener.
    rewrite Hh, Hspec. cbn. by rewrite Hfalsy.
Qed.

Lemma learning_teardown_repeatable_witness :
  ContainerPlugin.endGame VUndefined
    (LearningPlugin.teardown (setup_plugins true false configured_app)) = None
  ∧ trigger "init" VUndefined
      (LearningPlugin.teardown (setup_plugins true false configured_app)) = None
  ∧ trigger "configLoaded" (VRef 1)
      (LearningPlugin.teardown (setup_plugins true false configured_app)) = None.
Proof.
  destruct (learning_teardown_repeatable (setup_plugins true false configured_app))
    as (_ & _ & _ & _ & Hev & Hend & Hconfig & _).
  split_and!.
  - apply (Hend VUndefined true). vm_compute. tauto.
  - apply (Hev {| sub_name := "init"; sub_once := true; sub_listener := OnInit |}
             VUndefined); [vm_compute; tauto | reflexivity].
  - apply (Hconfig {| sub_name := "configLoaded"; sub_once := true;
                      sub_listener := OnConfigLoaded |} (VRef 1) (VStr "first"));
      [vm_compute; tauto | reflexivity | vm_compute; reflexivity | reflexivity].
Defined.

(** *** What the inbound handlers leave alone *)

(** No message of the container other than 'close' calls anything: the
    handler triggers no event, sends nothing back, destroys nothing, and
    leaves the messenger, the subscriptions and the unload hooks as they
    are. *)
Theorem handlers_are_silent (h : Inbound) (d : JsVal) (a a' : App)
    (Hnot_close : h ≠ Close)
    (Hrun : ContainerPlugin.run_inbound h d a = Some a') :
  log a' = log a
  ∧ messenger a' = messenger a
  ∧ subscriptions a' = subscriptions a
  ∧ window a' = window a
  ∧ destroyed a' = destroyed a
  ∧ pageVisibility a' = pageVisibility a
  ∧ learning a' = learning a.
Proof.
  destruct h; try done; cbn in Hrun.
  - unfold ContainerPlugin.onSoundMuted in Hrun. by simplify_option_eq.
  - unfold ContainerPlugin.onCaptionsMuted in Hrun. by simplify_option_eq.
  - unfold ContainerPlugin.onContextMuted in Hrun. by simplify_option_eq.
  - unfold ContainerPlugin.onCaptionsStyles in Hrun.
    repeat match type of Hrun with
           | context [match ?x with _ => _ end] => destruct x
           end; by simplify_option_eq.
  - unfold ContainerPlugin.onPause in Hrun. by simplify_option_eq.
  - unfold ContainerPlugin.onSinglePlay in Hrun. by simplify_option_eq.
  - unfold ContainerPlugin.onPlayOptions in Hrun. by simplify_option_eq.
Qed.

Lemma handlers_are_silent_witness :
  log (set_enabled false (set_paused true contained_app)) = log contained_app.
Proof.
  destruct (handlers_are_silent Pause (VBool true) contained_app
              (set_enabled false (set_paused true contained_app))
              ltac:(discriminate) eq_refl) as (H & _).
  exact H.
Defined.

(** *** The features announced *)

Lemma features_lookup (a : App) :
  ContainerPlugin.features a !! "learning" = Some (VBool (bool_decide (is_Some (learning a))))
  ∧ ContainerPlugin.features a !! "sound" = Some (VBool (bool_decide (is_Some (sound a))))
  ∧ ContainerPlugin.features a !! "music" =
      Some (VBool (bool_decide (is_Some (sound a)) && ContainerPlugin.contextExists "music" a))
  ∧ ContainerPlugin.features a !! "vo" =
      Some (VBool (bool_decide (is_Some (sound a)) && ContainerPlugin.contextExists "vo" a))
  ∧ ContainerPlugin.features a !! "sfx" =
      Some (VBool (bool_decide (is_Some (sound a)) && ContainerPlugin.contextExists "sfx" a)).
Proof. split_and!; reflexivity. Qed.

(** The object sent with 'features' has the seven keys and a boolean under
    each; it announces a sound context only together with sound, and only
    a context the sound object has; it announces learning exactly when the
    application has a dispatcher. *)
Theorem features_consistent (a : App) :
  dom (ContainerPlugin.features a)
    = list_to_set ["learning"; "sound"; "hints"; "music"; "vo"; "sfx"; "captions"]
  ∧ (∀ k v, ContainerPlugin.features a !! k = Some v → ∃ b, v = VBool b)
  ∧ (∀ context, In context ["music"; "vo"; "sfx"] →
       ContainerPlugin.features a !! context = Some (VBool true) →
       ContainerPlugin.features a !! "sound" = Some (VBool true)
       ∧ ContainerPlugin.contextExists context a = true)
  ∧ (sound a = None →
       ∀ k, In k ["sound"; "music"; "vo"; "sfx"] →
            ContainerPlugin.features a !! k = Some (VBool false))
  ∧ (ContainerPlugin.features a !! "learning" = Some (VBool true) ↔ is_Some (learning a)).
Proof.
  destruct (features_lookup a) as (Hl & Hs & Hmusic & Hvo & Hsfx).
  split_and!.
  - unfold ContainerPlugin.features. rewrite dom_list_to_map_L. reflexivity.
  - unfold ContainerPlugin.features. intros k v Hk. apply elem_of_list_to_map_2 in Hk.
    apply list_elem_of_In in Hk. cbn in Hk.
    repeat (destruct Hk as [[= <- <-]|Hk]; [eauto|]). destruct Hk.
  - intros context Hin Hc. cbn in Hin. rewrite Hs.
    destruct Hin as [<-|[<-|[<-|[]]]];
      [rewrite Hmusic in Hc | rewrite Hvo in Hc | rewrite Hsfx in Hc];
      injection Hc as [H1 H2]%andb_true_iff; by rewrite H1.
  - intros Hno k Hin. cbn in Hin.
    assert (bool_decide (is_Some (sound a)) = false) as Hb
      by (apply bool_decide_eq_false; rewrite Hno; by intros [? ?]).
    destruct Hin as [<-|[<-|[<-|[<-|[]]]]];
      rewrite ?Hs, ?Hmusic, ?Hvo, ?Hsfx, Hb; done.
  - rewrite Hl. split.
    + intros [= H]. by apply bool_decide_eq_true in H.
    + intros H. by rewrite (bool_decide_eq_true_2 _ H).
Qed.

Lemma features_consistent_witness :
  ContainerPlugin.features (new_app ∅) !! "music" = Some (VBool false).
Proof.
  destruct (features_consistent (new_app ∅)) as (_ & _ & _ & H & _).
  apply (H eq_refl). cbn. tauto.
Defined.

(** *** The play options and the option they come from *)

Lemma preload_options (a a' : App) (m : Messenger) :
  messenger a = Some m → ContainerPlugin.preload a = Some a' → options a' = options a.
Proof.
  intros Hm. rewrite (preload_unfold a m Hm). pose proof (copy_options_frame a) as Hf.
  destruct (supported m); intros [= <-]; cbn; by rewrite Hf.
Qed.

(** When the option [playOptions] is an object, [preload] takes the object
    itself, not a copy: a later 'playOptions' message is merged into the
    object the option still refers to. *)
Theorem playOptions_message_changes_option_object (a : App) (m : Messenger)
    (l ls : positive) (existing payload : gmap string JsVal)
    (Hm : messenger a = Some m)
    (Hoption : option_value "playOptions" a = VRef l)
    (Hobj : heap a !! l = Some existing)
    (Hpayload : heap a !! ls = Some payload) :
  ∃ a1 a2,
    ContainerPlugin.preload a = Some a1
    ∧ ContainerPlugin.onPlayOptions (VRef ls) a1 = Some a2
    ∧ playOptions a2 = VRef l
    ∧ option_value "playOptions" a2 = VRef l
    ∧ ∀ k, get_field (heap a2) (option_value "playOptions" a2) k
           = Some (default VUndefined ((payload ∪ existing) !! k)).
Proof.
  destruct (preload_keeps_copy a m Hm) as (a1 & Hpre & Hp & Hkeep).
  destruct (copy_options_playOptions a) as (_ & Hk & Hcase).
  rewrite Hoption in Hcase. cbn [truthy] in Hcase. rewrite Hcase in Hp.
  assert (heap a1 !! l = Some existing) as Ho1 by (by apply Hkeep, Hk).
  assert (heap a1 !! ls = Some payload) as Hp1 by (by apply Hkeep, Hk).
  assert (option_value "playOptions" a1 = VRef l) as Hopt1.
  { unfold option_value in *. by rewrite (preload_options a a1 m Hm Hpre). }
  exists a1. eexists. split; [exact Hpre|]. split.
  { unfold ContainerPlugin.onPlayOptions, ContainerPlugin.merge_source, Object_merge.
    cbn. rewrite Hp1, Hp. cbn. rewrite Ho1. cbn. reflexivity. }
  split; [exact Hp|]. split; [exact Hopt1|].
  change (option_value "playOptions" (set_heap ?h a1)) with (option_value "playOptions" a1).
  rewrite Hopt1. intros k. cbn [heap set_heap get_field]. by rewrite lookup_insert_eq.
Qed.

Lemma playOptions_message_changes_option_object_witness :
  ∃ a1 a2,
    ContainerPlugin.preload optioned_play_app = Some a1
    ∧ ContainerPlugin.onPlayOptions (VRef 2) a1 = Some a2
    ∧ get_field (heap a2) (option_value "playOptions" a2) "b" = Some (VNum 2).
Proof.
  destruct (playOptions_message_changes_option_object optioned_play_app
              {| supported := true; inbound := [] |} 1 2
              {[ "a" := VNum 1 ]} {[ "b" := VNum 2 ]} eq_refl)
    as (a1 & a2 & H1 & H2 & _ & _ & H3); [by vm_compute..|].
  exists a1, a2. split_and!; [exact H1 | exact H2 |]. by rewrite H3.
Defined.

(** *** Over the whole life of the application *)

(** What an inbound handler other than 'close' leaves as it is. *)
Lemma inbound_frame (h : Inbound) (d : JsVal) (a a' : App) :
  h ≠ Close → ContainerPlugin.run_inbound h d a = Some a' →
  log a' = log a ∧ subscriptions a' = subscriptions a.
Proof.
  intros Hc Hrun. destruct h; try done; cbn in Hrun.
  - unfold ContainerPlugin.onSoundMuted in Hrun. by simplify_option_eq.
  - unfold ContainerPlugin.onCaptionsMuted in Hrun. by simplify_option_eq.
  - unfold ContainerPlugin.onContextMuted in Hrun. by simplify_option_eq.
  - unfold ContainerPlugin.onCaptionsStyles in Hrun.
    repeat match type of Hrun with
           | context [match ?x with _ => _ end] => destruct x
           end; by simplify_option_eq.
  - unfold ContainerPlugin.onPause in Hrun. by simplify_option_eq.
  - unfold ContainerPlugin.onSinglePlay in Hrun. by simplify_option_eq.
  - unfold ContainerPlugin.onPlayOptions in Hrun. by simplify_option_eq.
Qed.

Section Lifetime.

Context {X : Type} (N : string) (L : Listener)
        (obs : list Effect → list X) (out : JsVal → list X).

Hypothesis obs_app : ∀ es1 es2, obs (es1 ++ es2) = obs es1 ++ obs es2.
Hypothesis obs_plugin : ∀ e, plugin_effect e = true → obs [e] = [].
Hypothesis obs_other :
  ∀ l d a a', l ≠ L → run_listener l d a = Some a' → obs (log a') = obs (log a).
Hypothesis obs_own :
  ∀ d a a', run_listener L d a = Some a' → obs (log a') = obs (log a) ++ out d.

Lemma once_state_frame (base : list X) (a a' : App) :
  subscriptions a' = subscriptions a → obs (log a') = obs (log a) →
  once_state N L obs out base a → once_state N L obs out base a'.
Proof.
  unfold once_state, armed, spent. intros -> ->. tauto.
Qed.

Lemma once_state_emit (base : list X) (e : Effect) (a : App) :
  plugin_effect e = true → once_state N L obs out base a → once_state N L obs out base (emit e a).
Proof.
  intros He. apply once_state_frame; [done|].
  cbn [log emit set_log]. by rewrite obs_app, obs_plugin, app_nil_r.
Qed.

Lemma once_state_trigger (base : list X) (n : string) (d : JsVal) (a a' : App) :
  trigger n d a = Some a' → once_state N L obs out base a → once_state N L obs out base a'.
Proof.
  intros Ht [[Ha Hb]|[Hs [d0 Hb]]].
  - pose proof (trigger_obs L obs out obs_app (λ n d, obs_plugin (ETrigger n d) eq_refl)
                  obs_other obs_own _ _ _ _ _ Ha Ht) as Hobs.
    destruct (trigger_single _ _ _ _ _ _ Ha Ht) as (Hsub & _).
    unfold single_shot_for, subscribed_to in Hobs, Hsub. cbn [sub_name sub_once] in *.
    destruct (String.eqb N n); cbn [andb] in Hsub.
    + right. split; [done|]. exists d. by rewrite Hobs, Hb.
    + left. split; [done|]. by rewrite Hobs, app_nil_r.
  - right. destruct (trigger_spent _ _ _ _ _ Hs Ht) as (Hs' & ls & Hn & Hd).
    split; [done|]. exists d0.
    rewrite (dispatch_obs_other L obs obs_other _ _ _ _ Hn Hd).
    cbn [log set_subscriptions emit set_log].
    by rewrite obs_app, (obs_plugin (ETrigger n d) eq_refl), app_nil_r.
Qed.

Lemma once_state_endGame (base : list X) (v : JsVal) (a a' : App) :
  ContainerPlugin.endGame v a = Some a' → once_state N L obs out base a → once_state N L obs out base a'.
Proof.
  unfold ContainerPlugin.endGame. intros H Hst.
  destruct (trigger _ _ a) as [b|] eqn:Ht; [|done]. injection H as <-.
  apply (once_state_frame base (emit EDestroy b)); [done | done |].
  apply once_state_emit; [done|]. by eapply once_state_trigger.
Qed.

Lemma once_state_inbounds (base : list X) (hs : list Inbound) (d : JsVal) (a a' : App) :
  ContainerPlugin.run_inbounds hs d a = Some a' → once_state N L obs out base a → once_state N L obs out base a'.
Proof.
  revert a. induction hs as [|h hs IH]; intros a H Hst; simpl in H.
  - by injection H as <-.
  - destruct (ContainerPlugin.run_inbound h d a) as [b|] eqn:Hh; [|done]. simpl in H.
    apply (IH b H).
    destruct (decide (h = Close)) as [->|Hc].
    + by apply (once_state_endGame base _ a b Hh).
    + destruct (inbound_frame h d a b Hc Hh) as [Hl Hs].
      apply (once_state_frame base a b); [done | by rewrite Hl | done].
Qed.

Lemma once_state_op (base : list X) (op : Op) (a a' : App) :
  run_op op a = Some a' → once_state N L obs out base a → once_state N L obs out base a'.
Proof.
  intros H Hst. destruct op; cbn [run_op] in H.
  - by eapply once_state_trigger.
  - unfold ContainerPlugin.receive in H. destruct (messenger a); [|by injection H as <-].
    by eapply once_state_inbounds.
  - destruct (messenger a) as [m|] eqn:Hm.
    + rewrite (preload_unfold a m Hm) in H. pose proof (copy_options_frame a) as Hf.
      assert (once_state N L obs out base (copy_options a)) as Hc.
      { apply (once_state_frame base a); [by rewrite Hf | by rewrite Hf | done]. }
      destruct (supported m); injection H as <-; [|done].
      apply (once_state_frame base
               (emit (ESend "features" (VRef (alloc (ContainerPlugin.features
                  (set_messenger (Some {| supported := true;
                     inbound := inbound m ++ ContainerPlugin.inbound_handlers |})
                     (copy_options a))) (heap (copy_options a))).1)) (copy_options a)));
        [done | done |].
      by apply once_state_emit.
    + unfold ContainerPlugin.preload in H.
      destruct (truthy _) in H; cbn in H; by rewrite Hm in H.
  - unfold ContainerPlugin.teardown, messenger_send in H.
    assert (once_state N L obs out base
              (if pageVisibility a
               then set_pageVisibility false (emit EVisibilityDestroy a) else a)) as Hv.
    { destruct (pageVisibility a); [|done].
      apply (once_state_frame base (emit EVisibilityDestroy a)); [done | done |].
      by apply once_state_emit. }
    destruct (messenger (if pageVisibility a then _ else a)); [|done].
    cbn in H. injection H as <-.
    match goal with |- once_state _ _ _ _ _ (set_messenger None ?x) =>
      apply (once_state_frame base x); [done | done |] end.
    apply once_state_emit; [done|]. by apply once_state_emit.
  - injection H as <-. unfold LearningPlugin.teardown. destruct (learning a); [|done].
    apply (once_state_frame base (emit ELearningDestroy a)); [done | done |].
    by apply once_state_emit.
  - unfold ContainerPlugin.singlePlayEnd in H. destruct (singlePlay a).
    + by eapply once_state_endGame.
    + by injection H as <-.
  - by eapply once_state_endGame.
  - unfold ContainerPlugin.fire in H.
    destruct (match hook with
              | ContainerPlugin.BeforeUnload => onbeforeunload (window a)
              | ContainerPlugin.Unload => onunload (window a)
              end) as [[]|]; [|by injection H as <-].
    unfold ContainerPlugin.onWindowUnload in H.
    apply (once_state_endGame base _ _ _ H).
    by apply (once_state_frame base a).
  - injection H as <-. unfold ContainerPlugin.onShow. destruct (pageVisibility a); [|done].
    by apply once_state_emit.
  - injection H as <-. unfold ContainerPlugin.onHide. destruct (pageVisibility a); [|done].
    by apply once_state_emit.
  - by eapply once_state_trigger.
Qed.

Lemma once_state_ops (base : list X) (ops : list Op) (a a' : App) :
  run_ops ops a = Some a' → once_state N L obs out base a → once_state N L obs out base a'.
Proof.
  revert a. induction ops as [|op ops IH]; intros a H Hst; simpl in H.
  - by injection H as <-.
  - destruct (run_op op a) as [b|] eqn:Hop; [|done]. simpl in H.
    apply (IH b H). by eapply once_state_op.
Qed.

End Lifetime.

Lemma unexpected_sends_app (es1 es2 : list Effect) :
  unexpected_sends (es1 ++ es2) = unexpected_sends es1 ++ unexpected_sends es2.
Proof. apply omap_app. Qed.

Lemma run_listener_expected (l : Listener) (d : JsVal) (a a' : App) :
  run_listener l d a = Some a' → unexpected_sends (log a') = unexpected_sends (log a).
Proof.
  intros H. destruct l; listener_cases H;
    cbn [log emit set_log set_learning]; rewrite ?unexpected_sends_app, ?app_nil_r; done.
Qed.

Lemma plugin_effect_send (name : string) (d : JsVal) :
  plugin_effect (ESend name d) = true →
  name = "features" ∨ name = "focus" ∨ name = "endGame".
Proof.
  cbn [plugin_effect].
  destruct (String.eqb_spec name "features") as [->|_]; [tauto|].
  destruct (String.eqb_spec name "focus") as [->|_]; [tauto|].
  destruct (String.eqb_spec name "endGame") as [->|_]; [tauto|done].
Qed.

Lemma plugin_effect_loadDone (e : Effect) :
  plugin_effect e = true → sent "loadDone" [e] = [].
Proof.
  destruct e; try done. by intros [-> | [-> | ->]]%plugin_effect_send.
Qed.

Lemma plugin_effect_ended (e : Effect) : plugin_effect e = true → ended_games [e] = [].
Proof. by destruct e. Qed.

Lemma plugin_effect_started (e : Effect) : plugin_effect e = true → started_games [e] = [].
Proof. by destruct e. Qed.

Lemma plugin_effect_expected (e : Effect) :
  plugin_effect e = true → unexpected_sends [e] = [].
Proof.
  destruct e; try done. by intros [-> | [-> | ->]]%plugin_effect_send.
Qed.

Lemma run_listener_loadDone_other (l : Listener) (d : JsVal) (a a' : App) :
  l ≠ OnLoaded → run_listener l d a = Some a' →
  sent "loadDone" (log a') = sent "loadDone" (log a).
Proof.
  intros Hl H. rewrite (run_listener_loadDone _ _ _ _ H).
  destruct (decide _); [done | by rewrite app_nil_r].
Qed.

Lemma run_listener_loadDone_own (d : JsVal) (a a' : App) :
  run_listener OnLoaded d a = Some a' →
  sent "loadDone" (log a') = sent "loadDone" (log a) ++ [VUndefined].
Proof. intros H. by rewrite (run_listener_loadDone _ _ _ _ H). Qed.

(** Whatever happens to the application after the two setups (events
    emitted, messages from the container, [preload], the game ending by
    any of its ways and any number of times, the unload hooks, the page
    shown or hidden, the teardowns), 'loadDone' is sent at most once, the
    dispatcher's [endGame] is called at most once and its [startGame] at
    most once. *)
Theorem once_in_a_lifetime (container debug : bool) (a0 : App) (ops : list Op) (a' : App)
    (Hfresh : subscriptions a0 = [])
    (Hrun : run_ops ops (setup_plugins container debug a0) = Some a') :
  (sent "loadDone" (log a') = sent "loadDone" (log a0)
   ∨ sent "loadDone" (log a') = sent "loadDone" (log a0) ++ [VUndefined])
  ∧ (ended_games (log a') = ended_games (log a0)
     ∨ ∃ exitType, ended_games (log a') = ended_games (log a0) ++ [exitType])
  ∧ (started_games (log a') = started_games (log a0)
     ∨ started_games (log a') = started_games (log a0) ++ [tt]).
Proof.
  destruct (setup_plugins_state container debug a0) as (Hsub & _ & _ & _ & Hlog).
  rewrite Hfresh, app_nil_l in Hsub.
  generalize dependent (setup_plugins container debug a0). intros a Hrun Hsub Hlog.
  split; [|split].
  - destruct (once_state_ops "loaded" OnLoaded (sent "loadDone") (λ _, [VUndefined])
                (sent_app "loadDone") plugin_effect_loadDone
                run_listener_loadDone_other run_listener_loadDone_own
                (sent "loadDone" (log a0)) ops a a' Hrun) as [[_ H]|[_ [_ H]]]; [|tauto..].
    left. split; [unfold armed; by rewrite Hsub|].
    by rewrite Hlog, sent_app, app_nil_r.
  - destruct (once_state_ops "endGame" OnEndGame ended_games (λ d, [d])
                ended_games_app plugin_effect_ended
                run_listener_ended_other run_listener_ended_own
                (ended_games (log a0)) ops a a' Hrun) as [[_ H]|[_ [d H]]]; [|tauto|eauto].
    left. split; [unfold armed; by rewrite Hsub|].
    by rewrite Hlog, ended_games_app, app_nil_r.
  - destruct (once_state_ops "init" OnInit started_games (λ _, [tt])
                started_games_app plugin_effect_started
                run_listener_started_other run_listener_started_own
                (started_games (log a0)) ops a a' Hrun) as [[_ H]|[_ [_ H]]]; [|tauto..].
    left. split; [unfold armed; by rewrite Hsub|].
    by rewrite Hlog, started_games_app, app_nil_r.
Qed.

Lemma once_in_a_lifetime_witness :
  ∃ a', run_ops sample_life (setup_plugins true false (new_app ∅)) = Some a'
        ∧ (sent "loadDone" (log a') = [] ∨ sent "loadDone" (log a') = [VUndefined])
        ∧ (ended_games (log a') = [] ∨ ∃ exitType, ended_games (log a') = [exitType])
        ∧ (started_games (log a') = [] ∨ started_games (log a') = [tt]).
Proof.
  destruct (run_ops sample_life (setup_plugins true false (new_app ∅)))
    as [a'|] eqn:Hrun; [|vm_compute in Hrun; discriminate].
  exists a'. split; [reflexivity|].
  exact (once_in_a_lifetime true false (new_app ∅) sample_life a' eq_refl Hrun).
Defined.

(** Over the same life, the messenger is only ever asked to send under
    the six names 'learningEvent', 'analyticEvent', 'loadDone',
    'features', 'focus' and 'endGame'. *)
Theorem only_six_messages_sent (container debug : bool) (a0 : App) (ops : list Op)
    (a' : App)
    (Hfresh : subscriptions a0 = [])
    (Hrun : run_ops ops (setup_plugins container debug a0) = Some a') :
  unexpected_sends (log a') = unexpected_sends (log a0).
Proof.
  destruct (setup_plugins_state container debug a0) as (Hsub & _ & _ & _ & Hlog).
  rewrite Hfresh, app_nil_l in Hsub.
  generalize dependent (setup_plugins container debug a0). intros a Hrun Hsub Hlog.
  destruct (once_state_ops "loaded" OnLoaded unexpected_sends (λ _, [])
              unexpected_sends_app plugin_effect_expected
              (λ l d a a' _, run_listener_expected l d a a')
              (λ d a a' H, eq_trans (run_listener_expected _ d a a' H)
                             (eq_sym (app_nil_r _)))
              (unexpected_sends (log a0)) ops a a' Hrun) as [[_ H]|[_ [_ H]]].
  - left. split; [unfold armed; by rewrite Hsub|].
    by rewrite Hlog, unexpected_sends_app, app_nil_r.
  - done.
  - by rewrite app_nil_r in H.
Qed.

Lemma only_six_messages_sent_witness :
  ∃ a', run_ops sample_life (setup_plugins true false (new_app ∅)) = Some a'
        ∧ unexpected_sends (log a') = [].
Proof.
  destruct (run_ops sample_life (setup_plugins true false (new_app ∅)))
    as [a'|] eqn:Hrun; [|vm_compute in Hrun; discriminate].
  exists a'. split; [reflexivity|].
  exact (only_six_messages_sent true false (new_app ∅) sample_life a' eq_refl Hrun).
Defined.
